(** * HogueResMaster: the content pipeline, embedded and verified

    The repository ships successive builds of one resume pipeline:
    [HogueResMaster_v9_2_2.py], [HogueResMaster_v11_final_fat.py] and
    [HogueResMaster_v11.py].  The functions below are shallow embeddings of
    the Python functions of the same names.  Where builds differ, every
    variant lives in a module named after its build ([V11], [Fat], [V9]).

    Text model.  A Python [str] is a Stdlib [string].  The model is exact on
    ASCII text.  The source's own non-ASCII literals (the em dash, the bullet,
    the arrow and the typographic apostrophe) appear as their UTF-8 bytes;
    like every byte above 127 they belong to no character class below and
    [lower] leaves them alone, which is how Python treats those
    characters.
    An argument that Python would accept as [None] and replace by an empty
    string ([text or ""]) is the empty string here. *)

From Stdlib Require Import ZArith QArith Qabs Qpower Ascii String List Bool Lia.
From stdpp Require Import base gmap strings list sorting.

#[local] Set Warnings "-clear-no-such-hyp,-register-all".

Local Open Scope string_scope.
Local Open Scope list_scope.

(** ** Python string primitives *)
Module Py.

Definition code (c : ascii) : N := N_of_ascii c.

Definition in_range (lo hi : N) (c : ascii) : bool :=
  ((lo <=? code c) && (code c <=? hi))%N.

Definition is_upper (c : ascii) : bool := in_range 65 90 c.
Definition is_lower (c : ascii) : bool := in_range 97 122 c.

(** [[A-Za-z]] *)
Definition is_alpha (c : ascii) : bool := is_upper c || is_lower c.

(** [\d] on ASCII *)
Definition is_digit (c : ascii) : bool := in_range 48 57 c.

(** [\s] and [str.isspace] on ASCII: TAB..CR, FS..US and SPACE. *)
Definition is_space (c : ascii) : bool :=
  in_range 9 13 c || in_range 28 32 c.

(** [\w] on ASCII: letters, digits and the underscore. *)
Definition is_word (c : ascii) : bool :=
  is_alpha c || is_digit c || (code c =? 95)%N.

(** [str.lower] on one character. *)
Definition lower_char (c : ascii) : ascii :=
  if is_upper c then ascii_of_N (code c + 32) else c.

(** [str.upper] on an ASCII letter; other characters are left alone. *)
Definition upper_ascii (c : ascii) : ascii :=
  if is_lower c then ascii_of_N (code c - 32) else c.

Definition chars (s : string) : list ascii := list_ascii_of_string s.
Definition str (l : list ascii) : string := string_of_list_ascii l.

Definition lower (s : string) : string := str (map lower_char (chars s)).

(** [s[:n]] and [l[:n]] for any Python integer [n]. *)
Definition slice_to {A} (l : list A) (n : Z) : list A :=
  if (0 <=? n)%Z then take (Z.to_nat n) l
  else take (length l - Z.to_nat (- n)) l.

(** [s[n:]] for a non-negative [n]. *)
Definition slice_from {A} (l : list A) (n : nat) : list A := drop n l.

Definition str_slice_to (s : string) (n : Z) : string :=
  str (slice_to (chars s) n).

(** [sep.join(xs)] *)
Definition join (sep : string) (xs : list string) : string :=
  String.concat sep xs.

(** [str.lstrip()], [str.rstrip()] and [str.strip()] *)
Fixpoint lstrip_chars (l : list ascii) : list ascii :=
  match l with
  | c :: r => if is_space c then lstrip_chars r else l
  | [] => []
  end.

Definition rstrip_chars (l : list ascii) : list ascii :=
  rev (lstrip_chars (rev l)).

Definition strip_chars (l : list ascii) : list ascii :=
  rstrip_chars (lstrip_chars l).

Definition strip (s : string) : string := str (strip_chars (chars s)).

(** Truth value of a string: non-empty. *)
Definition truthy (s : string) : bool :=
  match s with EmptyString => false | _ => true end.

(** [k in t] for strings: [k] occurs in [t] as a contiguous substring. *)
Fixpoint starts_with (k t : list ascii) : bool :=
  match k, t with
  | [], _ => true
  | _ :: _, [] => false
  | a :: k', b :: t' => Ascii.eqb a b && starts_with k' t'
  end.

Fixpoint contains_chars (k t : list ascii) : bool :=
  starts_with k t ||
  match t with
  | [] => false
  | _ :: t' => contains_chars k t'
  end.

Definition contains (k t : string) : bool :=
  contains_chars (chars k) (chars t).

(** [re.findall] for a pattern [[class]{n,}]: the maximal runs of
    characters of the class that have at least [n] characters, left to
    right.  [cur] is the run being read, newest character first. *)
Definition emit_run (minlen : nat) (cur : list ascii) : list string :=
  if (minlen <=? length cur)%nat then [str (rev cur)] else [].

Fixpoint runs_go (p : ascii -> bool) (minlen : nat)
    (cur : list ascii) (s : list ascii) : list string :=
  match s with
  | [] => emit_run minlen cur
  | c :: r =>
      if p c then runs_go p minlen (c :: cur) r
      else emit_run minlen cur ++ runs_go p minlen [] r
  end.

Definition findall_runs (p : ascii -> bool) (minlen : nat) (s : string)
  : list string :=
  runs_go p minlen [] (chars s).

(** [str.split()] with no argument: the maximal runs of non-space
    characters. *)
Definition split (s : string) : list string :=
  findall_runs (fun c => negb (is_space c)) 1 s.

(** [round(x)] on an exactly known rational: nearest integer, ties to the
    even one. *)
Definition round (q : Q) : Z :=
  let n := Qnum q in
  let d := Zpos (Qden q) in
  let f := (n / d)%Z in
  let r := (n mod d)%Z in
  if (2 * r <? d)%Z then f
  else if (d <? 2 * r)%Z then (f + 1)%Z
  else if Z.even f then f else (f + 1)%Z.

(** [l[n:]] for any Python integer [n]. *)
Definition slice_from_z {A} (l : list A) (n : Z) : list A :=
  if (0 <=? n)%Z then drop (Z.to_nat n) l
  else drop (length l - Z.to_nat (- n)) l.

(** [str.title()] on ASCII: a letter that follows a non-letter is put in
    upper case, a letter that follows a letter in lower case. *)
Fixpoint title_go (prev_cased : bool) (l : list ascii) : list ascii :=
  match l with
  | [] => []
  | c :: r =>
      (if is_lower c then (if prev_cased then c else upper_ascii c)
       else if is_upper c then (if prev_cased then lower_char c else c)
       else c) :: title_go (is_alpha c) r
  end.

Definition title (s : string) : string := str (title_go false (chars s)).

(** [re.sub(r"\s+", " ", s)]: every maximal run of whitespace becomes one
    space.  [in_ws] tells that the previous character was whitespace. *)
Fixpoint collapse_go (in_ws : bool) (l : list ascii) : list ascii :=
  match l with
  | [] => []
  | c :: r =>
      if is_space c then
        (if in_ws then collapse_go true r else " "%char :: collapse_go true r)
      else c :: collapse_go false r
  end.

Definition collapse_ws (s : string) : string :=
  str (collapse_go false (chars s)).

(** [str.splitlines()] on ASCII: LF, VT, FF, CR, FS, GS and RS end a line,
    CR LF ends one line.  [after_cr] tells that the previous character was
    a CR; [cur] is the line being read, newest character first. *)
Definition is_linebreak (c : ascii) : bool :=
  in_range 10 13 c || in_range 28 30 c.

Fixpoint splitlines_go (after_cr : bool) (cur : list ascii)
    (s : list ascii) : list string :=
  match s with
  | [] => match cur with [] => [] | _ => [str (rev cur)] end
  | c :: r =>
      if after_cr && (code c =? 10)%N then splitlines_go false [] r
      else if is_linebreak c
      then str (rev cur) :: splitlines_go (code c =? 13)%N [] r
      else splitlines_go false (c :: cur) r
  end.

Definition splitlines (s : string) : list string :=
  splitlines_go false [] (chars s).

(** [re.search]: the matcher [m] succeeds at some position of [s]. *)
Fixpoint search_chars (m : list ascii -> bool) (s : list ascii) : bool :=
  m s || match s with [] => false | _ :: r => search_chars m r end.

(** Pieces of a pattern that needs no backtracking: a literal, [\s*]
    before a non-space literal, and [c?] before a literal that does not
    start with [c].  Each returns the rest of the subject. *)
Definition re_lit (k : string) (s : list ascii) : option (list ascii) :=
  if starts_with (chars k) s then Some (drop (String.length k) s) else None.

Definition re_spaces (s : list ascii) : option (list ascii) :=
  Some (lstrip_chars s).

Definition re_opt (c : ascii) (s : list ascii) : option (list ascii) :=
  match s with
  | c' :: r => if Ascii.eqb c c' then Some r else Some s
  | [] => Some s
  end.

(** [s.strip(c)] for a one-character argument. *)
Fixpoint lstrip_char (c : ascii) (l : list ascii) : list ascii :=
  match l with
  | c' :: r => if Ascii.eqb c c' then lstrip_char c r else l
  | [] => []
  end.

Definition strip_char (c : ascii) (l : list ascii) : list ascii :=
  rev (lstrip_char c (rev (lstrip_char c l))).

(** The pieces of a pattern one after the other. *)
Definition re_seq (steps : list (list ascii -> option (list ascii)))
    (s : list ascii) : option (list ascii) :=
  fold_left
    (fun acc step => match acc with Some r => step r | None => None end)
    steps (Some s).
End Py.

(** ** Scoring: keyword sets, coverage, composite score, letter grade *)

(** The loop of [kw_set]:
    [for t in toks: if t not in seen: seen.add(t); out.append(t)]. *)
Fixpoint kw_loop (toks : list string) (seen : gset string) (out : list string)
  : list string :=
  match toks with
  | [] => out
  | t :: rest =>
      if decide (t ∈ seen) then kw_loop rest seen out
      else kw_loop rest ({[ t ]} ∪ seen) (out ++ [t])
  end.

(** The conditional chain that both [letter_grade] (fat build) and
    [composite_scores] (v11 build, inline) evaluate. *)
Definition letter_grade (x : Z) : string :=
  if (97 <=? x)%Z then "A+" else if (93 <=? x)%Z then "A"
  else if (90 <=? x)%Z then "A-" else if (87 <=? x)%Z then "B+"
  else if (83 <=? x)%Z then "B" else if (80 <=? x)%Z then "B-"
  else if (77 <=? x)%Z then "C+" else if (73 <=? x)%Z then "C"
  else if (70 <=? x)%Z then "C-" else if (60 <=? x)%Z then "D"
  else "F".

(** [cov = int(round(100 * len(jks & tks) / max(1, len(jks))))].  The
    quotient of the two integers is taken exactly: with at most 400 keywords
    it is either a half-integer, which binary floating point represents
    exactly, or further than 1/800 from one, so rounding the floating-point
    quotient gives the same integer. *)
Definition coverage_of (jks tks : gset string) : Z :=
  Py.round (inject_Z (100 * Z.of_nat (size (jks ∩ tks)))
            / inject_Z (Z.max 1 (Z.of_nat (size jks)))).

(** [hire = int(round(0.5*cov + 0.5*ats))]; both products and their sum are
    exact in binary floating point for integer scores. *)
Definition hire_of (cov ats : Z) : Z :=
  Py.round ((1 # 2) * inject_Z cov + (1 # 2) * inject_Z ats).

Record ScoreSet := mkScores
  { sc_match : Z; sc_scan : Z; sc_hire : Z; sc_grade : string }.

(** HogueResMaster_v11.py *)
Module V11.
Definition clean_tokens (text : string) : list string :=
  Py.findall_runs Py.is_alpha 2 (Py.lower text).

(** [out[:topn]], the list that [kw_set] turns into a set. *)
Definition kw_list (text : string) (topn : Z) : list string :=
  Py.slice_to (kw_loop (clean_tokens text) ∅ []) topn.

Definition kw_set (text : string) (topn : Z) : gset string :=
  list_to_set (kw_list text topn).

Section Scores.
(** [ats_score] mixes regular-expression counts with binary
    floating-point products by 0.3 and 0.2; it is kept as a parameter.
    The claims only use that it returns an integer. *)
Variable ats_score : string -> Z.

Definition composite_scores (jd txt : string) : ScoreSet :=
  let jks := kw_set jd 400 in
  let tks := kw_set txt 400 in
  let cov := coverage_of jks tks in
  let ats := ats_score txt in
  let hire := hire_of cov ats in
  let grade :=
    if (97 <=? hire)%Z then "A+" else if (93 <=? hire)%Z then "A"
    else if (90 <=? hire)%Z then "A-" else if (87 <=? hire)%Z then "B+"
    else if (83 <=? hire)%Z then "B" else if (80 <=? hire)%Z then "B-"
    else if (77 <=? hire)%Z then "C+" else if (73 <=? hire)%Z then "C"
    else if (70 <=? hire)%Z then "C-" else if (60 <=? hire)%Z then "D"
    else "F" in
  mkScores cov ats hire grade.
End Scores.
End V11.

(** HogueResMaster_v11_final_fat.py (HogueResMaster_v9_2_2.py has the same
    [clean_tokens] and [kw_set]). *)
Module Fat.
Definition STOPWORDS : gset string :=
  list_to_set (Py.split
    "a an and or the but with for to from on in at as by of be is are was were will would shall should can could into within without among across per plus via than then that this those it its your you we our they them their he she his her who whom which what when where why how").

Definition clean_tokens (text : string) : list string :=
  filter (fun t => t ∉ STOPWORDS)
         (Py.findall_runs Py.is_alpha 2 (Py.lower text)).

Definition kw_list (text : string) (topn : Z) : list string :=
  Py.slice_to (kw_loop (clean_tokens text) ∅ []) topn.

Definition kw_set (text : string) (topn : Z) : gset string :=
  list_to_set (kw_list text topn).

Section Scores.
Variable ats_score : string -> Z.

Definition composite_scores (jd txt : string) : Z * Z * Z * string :=
  let jks := kw_set jd 400 in
  let tks := kw_set txt 400 in
  let cov := coverage_of jks tks in
  let ats := ats_score txt in
  let hire := hire_of cov ats in
  (cov, ats, hire, letter_grade hire).
End Scores.
End Fat.

(** The grade table of the specification: inclusive lower bounds, highest
    first. *)
Definition grade_table : list (Z * string) :=
  [(97, "A+"); (93, "A"); (90, "A-"); (87, "B+"); (83, "B"); (80, "B-");
   (77, "C+"); (73, "C"); (70, "C-"); (60, "D")]%Z.

(** [g] is the grade of [h] by the table: the entry with the greatest lower
    bound not above [h], or F when [h] is below every bound. *)
Definition table_grade (h : Z) (g : string) : Prop :=
  (exists b, (b, g) ∈ grade_table /\ (b <= h)%Z /\
     forall b' g', (b', g') ∈ grade_table -> (b' <= h)%Z -> (b' <= b)%Z)
  \/ (g = "F" /\ forall b' g', (b', g') ∈ grade_table -> (h < b')%Z).

(** [n] is [q] rounded to the nearest integer, ties to even. *)
Definition nearest_even (q : Q) (n : Z) : Prop :=
  (Qabs (q - inject_Z n) <= 1 # 2)%Q /\
  (Qabs (q - inject_Z n) == 1 # 2 -> Z.even n = true)%Q.

(** ** Feature flags: the dictionary [V11] of HogueResMaster_v11.py *)
Record Flags := mkFlags
  { demo_mode : bool; ocr_enabled : bool; link_check : bool;
    zip_layout_mobile : bool; ab_bullet_variant : bool; dedup_tighten : bool;
    federal_gate : bool; evidence_only : bool; style_memory : bool;
    safe_share_default : bool; idempotent_runs : bool }.

(** The values the source assigns. *)
Definition V11_defaults : Flags :=
  mkFlags false true true true true true true true true true true.

(** The one-character string ["\n"]. *)
Definition NL : string := String (ascii_of_N 10) EmptyString.

(** ** Bullets: [tighten_bullets] (HogueResMaster_v11.py) *)

(** The loop body; [seen] and [cleaned] are the loop's two accumulators.
    The cap is tested after the append, as in the source. *)
Fixpoint tighten_loop (bullets : list string) (max_per_role : Z)
    (seen : gset string) (cleaned : list string) : list string :=
  match bullets with
  | [] => cleaned
  | b :: rest =>
      let t := Py.collapse_ws (Py.strip b) in
      if negb (Py.truthy t) then tighten_loop rest max_per_role seen cleaned
      else
        let key := Py.lower t in
        if decide (key ∈ seen) then tighten_loop rest max_per_role seen cleaned
        else
          let seen' := {[ key ]} ∪ seen in
          let cleaned' := cleaned ++ [Py.str_slice_to t 180] in
          if (max_per_role <=? Z.of_nat (length cleaned'))%Z then cleaned'
          else tighten_loop rest max_per_role seen' cleaned'
  end.

Definition tighten_bullets (V : Flags) (bullets : list string)
    (max_per_role : Z) : list string :=
  if negb (dedup_tighten V) then bullets
  else tighten_loop bullets max_per_role ∅ [].

(** ** Cover letter: [evidence_guard] (HogueResMaster_v11.py) *)

(** The loop over the non-blank lines; both branches of the source's test
    append the line. *)
Fixpoint guard_loop (basis : string) (lines : list string)
    (kept : list string) : list string :=
  match lines with
  | [] => kept
  | ln :: rest =>
      let words := Py.findall_runs Py.is_lower 4 (Py.lower ln) in
      if match words with [] => true | _ => false end
         || negb (existsb (fun w => Py.contains w basis) words)
      then guard_loop basis rest (kept ++ [ln])
      else guard_loop basis rest (kept ++ [ln])
  end.

Definition evidence_guard (V : Flags) (cover_text resume_text jd_text : string)
  : string :=
  if negb (evidence_only V) then cover_text
  else
    let basis := Py.lower (resume_text ++ NL ++ jd_text) in
    let lines :=
      filter (fun ln => Py.truthy (Py.strip ln) = true)
             (Py.splitlines cover_text) in
    Py.join NL (guard_loop basis lines []).

(** ** Style signals: [detect_signals], [detect_closing_et] *)

(** One match of [\b\d{1,3}%\b] starting at the head of [s].  The character
    before the head is known not to be a word character (the leading [\b]).
    The digits must be followed by a percent sign at once, so the run of
    digits has one to three digits; the closing [\b] after the percent sign
    needs a word character behind it. *)
Definition pct_here (s : list ascii) : bool :=
  let pct_word (r : list ascii) : bool :=
    match r with
    | p :: w :: _ => (Py.code p =? 37)%N && Py.is_word w
    | _ => false
    end in
  match s with
  | d1 :: r1 =>
      Py.is_digit d1 &&
      (pct_word r1 ||
       match r1 with
       | d2 :: r2 =>
           Py.is_digit d2 &&
           (pct_word r2 ||
            match r2 with
            | d3 :: r3 => Py.is_digit d3 && pct_word r3
            | [] => false
            end)
       | [] => false
       end)
  | [] => false
  end.

(** [len(re.findall(r"\b\d{1,3}%\b", t))].  A match starts at a digit that
    follows a non-word character; no other match can start inside it, so
    the matches are counted by their start positions.  [prev_word] tells
    that the previous character is a word character. *)
Fixpoint count_pct (prev_word : bool) (s : list ascii) : nat :=
  match s with
  | [] => 0
  | c :: r =>
      (if negb prev_word && pct_here s then 1 else 0)
      + count_pct (Py.is_word c) r
  end.

Definition any_in (keys : list string) (t : string) : bool :=
  existsb (fun k => Py.contains k t) keys.

Definition detect_signals (resume_txt jd_txt : string) : gset string :=
  let t := Py.lower (resume_txt ++ " " ++ jd_txt) in
  (if any_in ["usajobs"; " gs-"; "specialized experience"] t
   then {[ "federal" ]} else ∅)
  ∪ (if any_in ["rn"; "emt"; "hipaa"; "epic"; "cerner"; "clinic"; "ehr"; "emr"] t
     then {[ "healthcare" ]} else ∅)
  ∪ (if any_in ["curriculum vitae"; "publication"; "postdoc"; "grant"] t
     then {[ "academic" ]} else ∅)
  ∪ (if any_in ["vp "; "vice president"; "director "; "p&l"; "profit and loss";
                "org of"; "grew "; "growth "] t
     then {[ "executive" ]} else ∅)
  ∪ (if any_in ["python"; "sql"; "aws"; "git"; "ci/cd"; "docker"; "kubernetes";
                "microservice"] t
     then {[ "technical" ]} else ∅)
  ∪ (if (3 <=? count_pct false (Py.chars t))%nat
     then {[ "metric_heavy" ]} else ∅).

(** The pattern [11:\s*59\s*p\.?m\.?\s*eastern] at the head of [s]. *)
Definition closing_here (s : list ascii) : bool :=
  match
    Py.re_seq
      [Py.re_lit "11:"; Py.re_spaces; Py.re_lit "59"; Py.re_spaces;
       Py.re_lit "p"; Py.re_opt "."%char; Py.re_lit "m"; Py.re_opt "."%char;
       Py.re_spaces; Py.re_lit "eastern"] s
  with
  | Some _ => true
  | None => false
  end.

Definition detect_closing_et (jd_text : string) : string :=
  if Py.search_chars closing_here (Py.chars (Py.lower jd_text))
  then "Submit by 11:59 p.m. Eastern Time on the closing date."
  else "".

(** ** [hashlib.sha256(blob).hexdigest()] (FIPS 180-4) *)
Module Sha256.
Local Open Scope N_scope.

Definition mask32 : N := 0xFFFFFFFF.
Definition add32 (a b : N) : N := N.land (a + b) mask32.
Definition rotr (n x : N) : N :=
  N.land (N.lor (N.shiftr x n) (N.shiftl x (32 - n))) mask32.
Definition shr (n x : N) : N := N.shiftr x n.
Definition not32 (x : N) : N := N.lxor x mask32.

Definition Ch (x y z : N) : N :=
  N.lxor (N.land x y) (N.land (not32 x) z).
Definition Maj (x y z : N) : N :=
  N.lxor (N.lxor (N.land x y) (N.land x z)) (N.land y z).
Definition bsig0 (x : N) : N :=
  N.lxor (N.lxor (rotr 2 x) (rotr 13 x)) (rotr 22 x).
Definition bsig1 (x : N) : N :=
  N.lxor (N.lxor (rotr 6 x) (rotr 11 x)) (rotr 25 x).
Definition ssig0 (x : N) : N :=
  N.lxor (N.lxor (rotr 7 x) (rotr 18 x)) (shr 3 x).
Definition ssig1 (x : N) : N :=
  N.lxor (N.lxor (rotr 17 x) (rotr 19 x)) (shr 10 x).

(** The constants of the standard are the first 32 bits of the fractional
    parts of the cube roots (round constants) and of the square roots
    (initial state) of the first primes. *)
Definition is_prime (n : N) : bool :=
  forallb (fun d => negb (n mod d =? 0)) (map N.of_nat (seq 2 (N.to_nat n - 2))).

Definition primes : list N :=
  Eval vm_compute in filter (fun n => is_prime n = true)
                       (map N.of_nat (seq 2 310)).

(** The integer cube root, one bit at a time from bit [bits - 1] down. *)
Fixpoint icbrt_go (bits : nat) (n r : N) : N :=
  match bits with
  | O => r
  | S b =>
      let c := r + 2 ^ N.of_nat b in
      icbrt_go b n (if c * c * c <=? n then c else r)
  end.

Definition frac_cbrt (p : N) : N := N.land (icbrt_go 36 (p * 2 ^ 96) 0) mask32.
Definition frac_sqrt (p : N) : N := N.land (N.sqrt (p * 2 ^ 64)) mask32.

Definition K : list N := Eval vm_compute in map frac_cbrt (take 64 primes).

Record state := mkState
  { ha : N; hb : N; hc : N; hd : N; he : N; hf : N; hg : N; hh : N }.

Definition H0 : state :=
  Eval vm_compute in
    match map frac_sqrt (take 8 primes) with
    | [a; b; c; d; e; f; g; h] => mkState a b c d e f g h
    | _ => mkState 0 0 0 0 0 0 0 0
    end.

(** Big-endian bytes of [x], [n] of them. *)
Fixpoint be_bytes (n : nat) (x : N) : list N :=
  match n with
  | O => []
  | S k => N.land (N.shiftr x (8 * N.of_nat k)) 0xFF :: be_bytes k x
  end.

(** The message, the byte 0x80, zero bytes up to 56 modulo 64, and the
    bit length on eight bytes. *)
Definition pad (msg : list N) : list N :=
  let len := length msg in
  let zeros := ((64 - (len + 9) mod 64) mod 64)%nat in
  msg ++ [0x80] ++ repeat 0 zeros ++ be_bytes 8 (8 * N.of_nat len).

Fixpoint words_of (n : nat) (bytes : list N) : list N :=
  match n with
  | O => []
  | S k =>
      match bytes with
      | b0 :: b1 :: b2 :: b3 :: r =>
          (N.shiftl b0 24 + N.shiftl b1 16 + N.shiftl b2 8 + b3)
            :: words_of k r
      | _ => []
      end
  end.

(** The message schedule: [n] more words after the ones in [w]. *)
Fixpoint schedule (n : nat) (w : list N) : list N :=
  match n with
  | O => w
  | S k =>
      let t := length w in
      let at_ (i : nat) := nth (t - i) w 0 in
      schedule k
        (w ++ [add32 (add32 (ssig1 (at_ 2%nat)) (at_ 7%nat))
                     (add32 (ssig0 (at_ 15%nat)) (at_ 16%nat))])
  end.

Definition round (s : state) (kw : N * N) : state :=
  let t1 := add32 (add32 (add32 (hh s) (bsig1 (he s)))
                         (add32 (Ch (he s) (hf s) (hg s)) (fst kw)))
                  (snd kw) in
  let t2 := add32 (bsig0 (ha s)) (Maj (ha s) (hb s) (hc s)) in
  mkState (add32 t1 t2) (ha s) (hb s) (hc s)
          (add32 (hd s) t1) (he s) (hf s) (hg s).

Definition compress (s : state) (block : list N) : state :=
  let w := schedule 48 (words_of 16 block) in
  let r := fold_left round (combine K w) s in
  mkState (add32 (ha s) (ha r)) (add32 (hb s) (hb r))
          (add32 (hc s) (hc r)) (add32 (hd s) (hd r))
          (add32 (he s) (he r)) (add32 (hf s) (hf r))
          (add32 (hg s) (hg r)) (add32 (hh s) (hh r)).

Fixpoint blocks (n : nat) (s : state) (bytes : list N) : state :=
  match n with
  | O => s
  | S k => blocks k (compress s (take 64 bytes)) (drop 64 bytes)
  end.

Definition digest (msg : list N) : state :=
  let p := pad msg in
  blocks (length p / 64) H0 p.

Definition hexdigit (x : N) : ascii :=
  if x <? 10 then ascii_of_N (48 + x) else ascii_of_N (87 + x).

Definition hex8 (x : N) : string :=
  Py.str (map (fun sh => hexdigit (N.land (N.shiftr x sh) 0xF))
              [28; 24; 20; 16; 12; 8; 4; 0]).

(** [hashlib.sha256(s.encode("utf-8")).hexdigest()] for an ASCII [s]. *)
Definition hexdigest (s : string) : string :=
  let d := digest (map N_of_ascii (Py.chars s)) in
  hex8 (ha d) ++ hex8 (hb d) ++ hex8 (hc d) ++ hex8 (hd d)
  ++ hex8 (he d) ++ hex8 (hf d) ++ hex8 (hg d) ++ hex8 (hh d).
End Sha256.

(** ** Content payload and enrichment (fat build and v9.2.2) *)

(** The payload dictionary.  A key that is absent in Python is the empty
    string or the empty list here: every read in the source goes through
    [get] with that default or through a truth test. *)
Record Role := mkRole
  { r_company : string; r_title : string; r_dates : string;
    r_bullets : list string }.

Record Payload := mkPayload
  { p_name : string; p_summary : string; p_core_items : list string;
    p_experience : list Role; p_licenses_certs : list string;
    p_education : string }.

Definition set_summary (p : Payload) (s : string) : Payload :=
  mkPayload (p_name p) s (p_core_items p) (p_experience p)
            (p_licenses_certs p) (p_education p).

Definition set_core_items (p : Payload) (core : list string) : Payload :=
  mkPayload (p_name p) (p_summary p) core (p_experience p)
            (p_licenses_certs p) (p_education p).

Definition set_experience (p : Payload) (e : list Role) : Payload :=
  mkPayload (p_name p) (p_summary p) (p_core_items p) e
            (p_licenses_certs p) (p_education p).

Definition set_bullets (r : Role) (b : list string) : Role :=
  mkRole (r_company r) (r_title r) (r_dates r) b.

(** The backslash, as a string. *)
Definition BSL : string := String (ascii_of_N 92) EmptyString.

Definition role_lines (j : Role) : list string :=
  (r_title j ++ " @ " ++ r_company j ++ " — " ++ r_dates j)%string
    :: map (fun b => ("• " ++ b)%string) (r_bullets j).

Definition noise : gset string :=
  list_to_set ["and"; "with"; "from"; "will"; "work"; "role"; "team";
               "customer"; "customers"; "clients"; "provide"; "years";
               "experience"; "requirements"; "must"; "have"].

(** The placeholder line of [ensure_metric_shell] / [inject_metric_shell]. *)
Definition METRIC_SHELL : string :=
  "Improved adoption by [CONFIRM]% and renewal rate by [CONFIRM]% across assigned accounts.".

(** [re.search(r"\d", x)] *)
Definition has_digit (x : string) : bool := existsb Py.is_digit (Py.chars x).

(** [inject_keywords] has the same text in both builds; it differs through
    [payload_to_text] only, which is a parameter of this section.
    [list(set)] enumerates a Python set in an order the language leaves
    open: the enumeration [set_list] is a parameter too. *)
Section Inject.
Variable set_list : gset string -> list string.
Variable payload_to_text : Payload -> string.

Definition nonzero (n : Z) : bool := negb (n =? 0)%Z.
Definition nonempty {A} (l : list A) : bool :=
  match l with [] => false | _ => true end.

(** [for t in list(missing)[:core_cap]:
       if t.title() not in core: core.append(t.title())] *)
Definition core_loop (core : list string) (ts : list string) : list string :=
  fold_left
    (fun core t =>
       if decide (Py.title t ∈ core) then core else core ++ [Py.title t])
    ts core.

Definition inject_keywords (payload : Payload) (jd_text : string)
    (per_section_caps : Z * Z * Z) : Payload :=
  let missing :=
    set_list (Fat.kw_set jd_text 400
              ∖ Fat.kw_set (payload_to_text payload) 400) in
  let missing := Py.slice_to (filter (fun m => m ∉ noise) missing) 6 in
  if negb (nonempty missing) then payload
  else
    let '(sum_cap, core_cap, bullet_cap) := per_section_caps in
    let '(payload, missing) :=
      if nonzero sum_cap && nonempty missing then
        let extra := Py.join ", " (Py.slice_to missing sum_cap) in
        (set_summary payload
           (Py.strip (p_summary payload
                      ++ (if Py.truthy (p_summary payload) then " " else "")
                      ++ "Focus: " ++ extra ++ ".")),
         Py.slice_from_z missing sum_cap)
      else (payload, missing) in
    let '(payload, missing) :=
      if nonzero core_cap && nonempty missing then
        (set_core_items payload
           (core_loop (p_core_items payload) (Py.slice_to missing core_cap)),
         Py.slice_from_z missing core_cap)
      else (payload, missing) in
    if nonzero bullet_cap && nonempty missing then
      match p_experience payload with
      | r0 :: rs =>
          let add := Py.slice_to missing bullet_cap in
          set_experience payload
            (set_bullets r0
               (("Advanced " ++ Py.join ", " add
                 ++ " initiatives aligned to role requirements.")%string
                  :: r_bullets r0) :: rs)
      | [] => payload
      end
    else payload.
End Inject.

(** HogueResMaster_v11_final_fat.py *)
Module FatEnrich.
Definition payload_to_text (payload : Payload) : string :=
  Py.join NL
    ([p_summary payload;
      ("Core: " ++ Py.join ", " (p_core_items payload))%string]
     ++ concat (map role_lines (p_experience payload))
     ++ (if Py.truthy (p_education payload)
         then [("Education: " ++ p_education payload)%string] else [])).

Definition inject_keywords (set_list : gset string -> list string) :=
  inject_keywords set_list payload_to_text.

Definition ensure_metric_shell (payload : Payload) : Payload :=
  match p_experience payload with
  | [] => payload
  | r0 :: rs =>
      let b := r_bullets r0 in
      if negb (existsb has_digit b)
      then set_experience payload (set_bullets r0 (METRIC_SHELL :: b) :: rs)
      else payload
  end.
End FatEnrich.

(** HogueResMaster_v9_2_2.py.  In this build the escapes are written with
    two backslashes: the lines are joined by a backslash and the letter n,
    and the pattern of [inject_metric_shell] is the raw string [\\d], which
    matches a backslash followed by the letter d. *)
Module V9.
Definition payload_to_text (payload : Payload) : string :=
  Py.join (BSL ++ "n")
    ([p_summary payload;
      ("Core: " ++ Py.join ", " (p_core_items payload))%string]
     ++ concat (map role_lines (p_experience payload))
     ++ (if nonempty (p_licenses_certs payload)
         then [("Licenses/Certs: "
                ++ Py.join ", " (p_licenses_certs payload))%string]
         else [])
     ++ (if Py.truthy (p_education payload)
         then [("Education: " ++ p_education payload)%string] else [])).

Definition inject_keywords (set_list : gset string -> list string) :=
  inject_keywords set_list payload_to_text.

(** [re.search(r"\\d", x)] *)
Definition has_backslash_d (x : string) : bool := Py.contains (BSL ++ "d") x.

Definition inject_metric_shell (payload : Payload) : Payload :=
  match p_experience payload with
  | [] => payload
  | r0 :: rs =>
      let b := r_bullets r0 in
      if negb (existsb has_backslash_d b)
      then set_experience payload (set_bullets r0 (METRIC_SHELL :: b) :: rs)
      else payload
  end.
End V9.

(** ** [json.dumps(obj, sort_keys=True)] and [build_signature] *)
Module Json.
(** The JSON values the pipeline serialises: strings, lists, and
    dictionaries with string keys.  A dictionary is the list of its items
    in insertion order; its keys are pairwise different. *)
Inductive value :=
| JStr (s : string)
| JArr (items : list value)
| JObj (items : list (string * value)).

Definition DQ : string := String (ascii_of_N 34) EmptyString.

(** One character inside a JSON string, with [ensure_ascii]. *)
Definition esc_char (c : ascii) : string :=
  let n := Py.code c in
  if (n =? 92)%N then BSL ++ BSL
  else if (n =? 34)%N then BSL ++ DQ
  else if (n =? 8)%N then BSL ++ "b"
  else if (n =? 12)%N then BSL ++ "f"
  else if (n =? 10)%N then BSL ++ "n"
  else if (n =? 13)%N then BSL ++ "r"
  else if (n =? 9)%N then BSL ++ "t"
  else if Py.in_range 32 126 c then String c EmptyString
  else BSL ++ "u00"
       ++ String (Sha256.hexdigit (N.shiftr n 4))
            (String (Sha256.hexdigit (N.land n 15)) EmptyString).

Definition encode_str (s : string) : string :=
  DQ ++ String.concat "" (map esc_char (Py.chars s)) ++ DQ.

(** Items are ordered by key; keys are compared character by character,
    as Python compares strings. *)
Definition key_le (a b : string * string) : Prop := String.le a.1 b.1.

#[global] Instance key_le_dec : RelDecision key_le.
Proof. intros a b. unfold key_le. apply _. Defined.

Definition item_text (kv : string * string) : string :=
  encode_str kv.1 ++ ": " ++ kv.2.

(** The values of a dictionary are rendered before its items are put in
    key order; the rendering of a value does not depend on its position,
    so this is the text that sorting first and rendering next gives. *)
Fixpoint dumps (j : value) : string :=
  match j with
  | JStr s => encode_str s
  | JArr items => "[" ++ Py.join ", " (map dumps items) ++ "]"
  | JObj items =>
      "{" ++ Py.join ", "
               (map item_text
                  (merge_sort key_le
                     (map (fun kv => match kv with
                                     | (k, v) => (k, dumps v)
                                     end) items)))
          ++ "}"
  end.
End Json.

(** The function that [dumps] maps over the items of a dictionary. *)
Definition render_item (kv : string * Json.value) : string * string :=
  match kv with (k, v) => (k, Json.dumps v) end.

(** A Python dictionary with string keys: its items in insertion order. *)
Definition dict := list (string * Json.value).

Definition build_signature (resume_text jd_text : string)
    (person selection : dict) : string :=
  let blob :=
    Json.dumps (Json.JObj [("resume", Json.JStr resume_text);
                           ("jd", Json.JStr jd_text);
                           ("person", Json.JObj person);
                           ("selection", Json.JObj selection)]) in
  Sha256.hexdigest blob.

(** ** Orchestrator: [generate_for_style] and [run_auto]
       (HogueResMaster_v11.py) *)

(** What the run can observe of its environment. *)
Record Env := mkEnv
  { TODAY : string; DOCX_OK : bool; PDF_OK : bool; REQ_OK : bool }.

Inductive Exn :=
| KeyError (key : string)
| IndexError
| AttributeError (msg : string).

(** A [pathlib.Path]: directory, file name without its suffix, suffix. *)
Record Path := mkPath { dir : string; stem : string; ext : string }.

Definition path_name (p : Path) : string := stem p ++ ext p.
Definition path_str (p : Path) : string := dir p ++ "/" ++ path_name p.
Definition with_suffix (p : Path) (suffix : string) : Path :=
  mkPath (dir p) (stem p) suffix.

Inductive Event :=
| EvMkdir (d : string)
| EvSaveMemory (mem : dict)
| EvPrint (line : string)
| EvWrite (path : string)
| EvZip (path : string) (arcnames : list string)
| EvMarkBuilt (sig : string).

(** The state a run reads and writes: the directories and files that exist,
    the content of [MEMO_FILE] ([None]: no readable file), the signatures
    that have a marker in [CACHE_DIR] (the time stamp inside a marker is
    never read), and the effects performed so far, oldest first.  The
    content of the produced documents is not part of the state. *)
Record World := mkWorld
  { w_dirs : gset string; w_files : gset string; w_memo : option dict;
    w_cache : gset string; w_log : list Event }.

Definition log (e : Event) (w : World) : list Event := w_log w ++ [e].

(** State and exceptions; the effects performed before an exception stay. *)
Definition M (A : Type) : Type := World -> (Exn + A) * World.

Definition ret {A} (a : A) : M A := fun w => (inr a, w).
Definition raise {A} (e : Exn) : M A := fun w => (inl e, w).
Definition bind {A B} (m : M A) (k : A -> M B) : M B :=
  fun w => match m w with
           | (inl e, w') => (inl e, w')
           | (inr a, w') => k a w'
           end.

Notation "'let*' x := m 'in' k" := (bind m (fun x => k))
  (at level 10, x name, m at level 100, k at level 200).

Definition lift {A} (r : Exn + A) : M A :=
  match r with inl e => raise e | inr a => ret a end.

Definition mkdir (d : string) : M unit := fun w =>
  (inr tt, mkWorld ({[ d ]} ∪ w_dirs w) (w_files w) (w_memo w) (w_cache w)
                   (log (EvMkdir d) w)).

Definition write_file (p : Path) : M unit := fun w =>
  (inr tt, mkWorld (w_dirs w) ({[ path_str p ]} ∪ w_files w) (w_memo w)
                   (w_cache w) (log (EvWrite (path_str p)) w)).

Definition write_zip (p : Path) (arcnames : list string) : M unit := fun w =>
  (inr tt, mkWorld (w_dirs w) ({[ path_str p ]} ∪ w_files w) (w_memo w)
                   (w_cache w) (log (EvZip (path_str p) arcnames) w)).

Definition print (line : string) : M unit := fun w =>
  (inr tt, mkWorld (w_dirs w) (w_files w) (w_memo w) (w_cache w)
                   (log (EvPrint line) w)).

Definition file_exists (p : Path) : M bool := fun w =>
  (inr (bool_decide (path_str p ∈ w_files w)), w).

(** [d[k] = v] on a dictionary. *)
Fixpoint dict_set (k : string) (v : Json.value) (d : dict) : dict :=
  match d with
  | [] => [(k, v)]
  | (k', v') :: r =>
      if String.eqb k k' then (k, v) :: r else (k', v') :: dict_set k v r
  end.

Definition _load_memory : M dict := fun w =>
  (inr (default [] (w_memo w)), w).

Definition _save_memory (d : dict) : M unit := fun w =>
  (inr tt, mkWorld (w_dirs w) (w_files w) (Some d) (w_cache w)
                   (log (EvSaveMemory d) w)).

Definition already_built (sig : string) : M bool := fun w =>
  (inr (bool_decide (sig ∈ w_cache w)), w).

Definition mark_built (sig : string) : M unit := fun w =>
  (inr tt, mkWorld (w_dirs w) (w_files w) (w_memo w) ({[ sig ]} ∪ w_cache w)
                   (log (EvMarkBuilt sig) w)).

(** [person[k]] on the identity dictionary. *)
Fixpoint person_get (person : list (string * string)) (k : string)
  : Exn + string :=
  match person with
  | [] => inl (KeyError k)
  | (k', v) :: r => if String.eqb k k' then inr v else person_get r k
  end.

Definition person_json (person : list (string * string)) : dict :=
  map (fun kv => (kv.1, Json.JStr kv.2)) person.

(** [re.sub(r"[^A-Za-z0-9]+", "_", s)] *)
Fixpoint squash_go (in_run : bool) (l : list ascii) : list ascii :=
  match l with
  | [] => []
  | c :: r =>
      if Py.is_alpha c || Py.is_digit c then c :: squash_go false r
      else if in_run then squash_go true r
      else "_"%char :: squash_go true r
  end.

Definition safe_name (s : string) : string :=
  let s := Py.strip_char "_"%char (squash_go false (Py.chars s)) in
  match take 64 s with
  | [] => "NA"
  | t => Py.str t
  end.

Definition style_disp (style : string) : string :=
  default "Classic"
    (snd <$> find (fun kv => String.eqb style kv.1)
       [("classic", "Classic"); ("hybrid", "Hybrid"); ("tech_ic", "Technical");
        ("executive", "Executive"); ("healthcare", "Healthcare");
        ("federal", "Federal"); ("academic_cv", "AcademicCV")]).

Definition base_name (first last company title style date_str : string)
  : string :=
  safe_name first ++ "_" ++ safe_name last ++ "_" ++ safe_name company ++ "_"
  ++ safe_name title ++ "_" ++ style_disp style ++ "_" ++ date_str.

(** The resume payload of this build. *)
Record Job := mkJob
  { j_company : string; j_title : string; j_dates : string;
    j_bullets : list string }.

Record ResumePayload := mkResumePayload
  { rp_title : string; rp_contact : string; rp_summary : string;
    rp_skills : list string; rp_experience : list Job;
    rp_licenses : list string; rp_education : string }.

Definition demo_payload (title : string) : ResumePayload :=
  mkResumePayload title "jane.doe@email.com | [phone hidden] | Denver, CO"
    "Hands-on contributor with measurable outcomes; single-column, Applicant Tracking System (ATS)-safe."
    ["Hydraulics"; "Blueprints"; "Safety Compliance"; "Diagnostics"]
    [mkJob "RiverWorks" "Lead Technician" "2020–Present"
       ["Reduced downtime 22% via preventive schedule";
        "Trained 4 apprentices; safety incidents 0 in 2 yrs";
        "Cut parts spend 12% by vendor consolidation"];
     mkJob "FlowPro" "Technician" "2016–2020"
       ["Completed ~180 service orders/yr";
        "Maintained 98% inspection pass rate"]]
    ["OSHA 30"; "EPA 608"] "A.A.S., Industrial Tech".

Definition real_payload (title : string) : ResumePayload :=
  mkResumePayload title "email | phone | city, state"
    "Professional contributor with measurable outcomes; clear, Applicant Tracking System (ATS)-safe structure."
    ["Stakeholder Management"; "Customer Success"; "Process Improvement";
     "Data-Driven Decisions"]
    [mkJob "Most Recent Company" "Most Recent Title" "2019–Present"
       ["Led adoption program across 25 accounts; improved renewal rate by 14%.";
        "Partnered cross-functionally to reduce churn and drive expansion."]]
    [] "B.A., University Name".

(** [make_cover_letter] as the source has it.  Its parameter [tone] (the
    string "warm") hides the module-level [ToneKit] instance of the same
    name, so the attribute lookup [tone.expand_once] of its last line raises
    before anything is returned; the statements before it change no state. *)
Definition make_cover_letter (resume_txt jd_txt : string)
    (person : list (string * string)) (company title : string)
  : Exn + string :=
  inl (AttributeError "'str' object has no attribute 'expand_once'").

(** The folder of the bundle a produced file goes to, by its name. *)
Definition bucket_of (name : string) : option string :=
  let has k := Py.contains k name in
  if has "_RESUME" && negb (has "VARIANT") then Some "Resume"
  else if has "VARIANT_B" then Some "Resume"
  else if has "_COVER" || has "_COMBINED" then Some "Cover"
  else if has "INTERVIEW_GUIDE" then Some "Guides"
  else if has "RUN_REPORT" || has "REDLINE" then Some "Reports"
  else if has "USAJOBS_CHECKLIST" then Some "Federal"
  else None.

Definition bucket_names : list string :=
  ["Resume"; "Cover"; "Guides"; "Reports"; "Federal"].

(** [{"styles": styles, "length": "auto", "options": ["combined", "zip"]}] *)
Definition selection_of (styles : list string) : dict :=
  [("styles", Json.JArr (map Json.JStr styles));
   ("length", Json.JStr "auto");
   ("options", Json.JArr [Json.JStr "combined"; Json.JStr "zip"])].

Definition SKIP_NOTICE : string := "Already up-to-date — skipping rebuild.".

Section Orchestrator.
Variable E : Env.
Variable V : Flags.

(** The cover-letter step.  [run_auto] below is the orchestrator with the
    source's own [make_cover_letter]. *)
Variable cover_step :
  string -> string -> list (string * string) -> string -> string ->
  Exn + string.

Definition remember_style (selection : dict) : M unit :=
  if negb (style_memory V) then ret tt
  else
    let* mem := _load_memory in
    _save_memory (dict_set "last_selection" (Json.JObj selection) mem).

Definition write_docx_simple (p : Path) : M Path :=
  if DOCX_OK E then (let* _ := write_file p in ret p)
  else
    let out := with_suffix p ".rtf" in
    let* _ := write_file out in ret out.

Definition write_pdf_simple (p : Path) : M Path :=
  if PDF_OK E then (let* _ := write_file p in ret p)
  else write_docx_simple (with_suffix p ".docx").

(** Only the effects of a style's generation are modelled: which files
    are written, in which order, and which paths are returned.  Link
    validation sends requests and changes no local state. *)
Definition generate_for_style (outdir style_key : string)
    (person : list (string * string))
    (company title resume_text jd_text : string) (payload : ResumePayload)
  : M (list Path) :=
  let* first := lift (person_get person "first") in
  let* last := lift (person_get person "last") in
  let base := base_name first last company title style_key (TODAY E) in
  let file (tail suffix : string) := mkPath outdir (base ++ tail) suffix in
  let* resume_written := write_docx_simple (file "_RESUME" ".docx") in
  let* variant_files :=
    (if ab_bullet_variant V && nonempty (rp_experience payload) then
       match rp_experience payload with
       | j0 :: _ =>
           if nonempty (j_bullets j0) then
             let* _ := write_docx_simple (file "_RESUME_VARIANT_B" ".docx") in
             ret [file "_RESUME_VARIANT_B" ".docx"]
           else ret []
       | [] => ret []
       end
     else ret []) in
  let* cover_text := lift (cover_step resume_text jd_text person company title) in
  let* _ := write_docx_simple (file "_COVER" ".docx") in
  let* _ := write_pdf_simple (file "_RUN_REPORT" ".pdf") in
  let* _ := write_pdf_simple (file "_REDLINE" ".pdf") in
  let* _ := write_pdf_simple (file "_INTERVIEW_GUIDE" ".pdf") in
  let* _ := write_docx_simple (file "_COMBINED" ".docx") in
  let* _ := write_docx_simple (file "_ATS" ".docx") in
  let files :=
    [resume_written; file "_COVER" ".docx"; file "_COMBINED" ".docx";
     file "_INTERVIEW_GUIDE" ".pdf"; file "_RUN_REPORT" ".pdf";
     file "_REDLINE" ".pdf"; file "_ATS" ".docx"] ++ variant_files in
  if String.eqb style_key "federal" && federal_gate V then
    let* _ := write_pdf_simple (file "_USAJOBS_CHECKLIST" ".pdf") in
    ret (files ++ [file "_USAJOBS_CHECKLIST" ".pdf"])
  else ret files.

(** [for s in styles: all_files += generate_for_style(...)] *)
Fixpoint styles_loop (outdir : string) (person : list (string * string))
    (company title resume_text jd_text : string) (payload : ResumePayload)
    (styles : list string) (all_files : list Path) : M (list Path) :=
  match styles with
  | [] => ret all_files
  | s :: rest =>
      let* files := generate_for_style outdir s person company title
                 resume_text jd_text payload in
      styles_loop outdir person company title resume_text jd_text payload
        rest (all_files ++ files)
  end.

(** The members of the bundle: the files that exist, under the name the
    archive gives them. *)
Fixpoint existing (files : list Path) : M (list Path) :=
  match files with
  | [] => ret []
  | f :: rest =>
      let* ok := file_exists f in
      let* more := existing rest in
      ret (if ok then f :: more else more)
  end.

Definition zip_with_folders (zip_path : Path) (all_files : list Path)
  : M unit :=
  let* present := existing all_files in
  write_zip zip_path
    (concat (map (fun b =>
               map (fun f => b ++ "/" ++ path_name f)%string
                   (filter (fun f => bucket_of (path_name f) = Some b)
                           present))
             bucket_names)
     ++ ["README_first.rtf"]).

Definition zip_flat (zip_path : Path) (all_files : list Path) : M unit :=
  let* present := existing all_files in
  write_zip zip_path (map path_name present).

Definition run_auto_with (outdir : string) (person : list (string * string))
    (company title resume_text jd_text : string) (styles : list string)
  : M (list Path) :=
  let* _ := mkdir outdir in
  let selection := selection_of styles in
  let* _ := remember_style selection in
  let sig :=
    if idempotent_runs V
    then build_signature resume_text jd_text (person_json person) selection
    else "" in
  let* built := (if Py.truthy sig then already_built sig else ret false) in
  if built then
    let* _ := print SKIP_NOTICE in
    ret []
  else
    let payload :=
      if demo_mode V then demo_payload title else real_payload title in
    let* all_files := styles_loop outdir person company title resume_text jd_text
                   payload styles [] in
    let* first := lift (person_get person "first") in
    let* last := lift (person_get person "last") in
    let* style0 := lift (match styles with
                    | [] => inl IndexError
                    | s :: _ => inr s
                    end) in
    let base := base_name first last company title style0 (TODAY E) in
    let zip_path := mkPath outdir (base ++ "_DELIVERABLES") ".zip" in
    let* _ := (if zip_layout_mobile V then zip_with_folders zip_path all_files
          else zip_flat zip_path all_files) in
    let* _ := (if idempotent_runs V && Py.truthy sig then mark_built sig
          else ret tt) in
    ret (all_files ++ [zip_path]).
End Orchestrator.

(** [run_auto] of the source. *)
Definition run_auto (E : Env) (V : Flags) :=
  run_auto_with E V make_cover_letter.

(** The first occurrences of [l], in order: the specification of the
    de-duplication that [kw_set] performs. *)
Fixpoint first_seen (l : list string) : list string :=
  match l with
  | [] => []
  | x :: r => x :: filter (fun y => y ≠ x) (first_seen r)
  end.

(** ** Inputs of the examples *)

(** A bullet of 180 letters followed by [last]. *)
Definition long_bullet (last : string) : string :=
  Py.str (repeat "a"%char 180) ++ last.

(** A payload whose most recent role has one bullet, with a figure. *)
Definition metric_payload : Payload :=
  mkPayload "Candidate" "Summary." ["Reporting"]
    [mkRole "Acme" "Analyst" "2019-2024" ["Grew revenue 14% year over year."]]
    [] "B.A.".

(** The scenario of the specification's section 8. *)
Definition scenario_job : string :=
  "Responsibilities: lead adoption programs, own renewal targets, report on revenue growth, 40 hours/week, closes 11:59 p.m. Eastern".

Definition scenario_candidate : string :=
  "Led adoption +14%. Built playbook; reduced churn 10%.".

(** The markers of the federal signal in [detect_signals]. *)
Definition federal_markers : list string :=
  ["usajobs"; " gs-"; "specialized experience"].

(** A line of a cover letter that [evidence_guard] looks at. *)
Definition nonblank (ln : string) : Prop := Py.truthy (Py.strip ln) = true.

(** ** Runs of the orchestrator used by the examples *)

Definition example_env : Env := mkEnv "2025-08-16" true true true.

Definition example_person : list (string * string) :=
  [("first", "Jonathan"); ("last", "Hogue")].

Definition example_sig : string :=
  build_signature "resume" "job" (person_json example_person)
    (selection_of ["classic"]).

Definition cached_world : World := mkWorld ∅ ∅ None {[ example_sig ]} [].


(** An effect that is not the recording of a signature. *)
Definition not_mark (e : Event) : Prop := forall s, e ≠ EvMarkBuilt s.

(** A computation that records no signature: it only appends effects other
    than [EvMarkBuilt] to the log and leaves the cache as it is, whether it
    returns or raises. *)
Definition quiet {A} (m : M A) : Prop :=
  forall w, exists evs,
    w_log (m w).2 = w_log w ++ evs /\ Forall not_mark evs
    /\ w_cache (m w).2 = w_cache w.


(** ** What C4 allows [inject_keywords] to do *)

Definition focus_clause (kws : list string) : string :=
  "Focus: " ++ Py.join ", " kws ++ ".".

Definition advanced_sentence (kws : list string) : string :=
  "Advanced " ++ Py.join ", " kws ++ " initiatives aligned to role requirements.".

(** [p'] is [p] after an injection within the caps: the summary is as it
    was or has got one Focus clause of at most [sum_cap] keywords; the core
    list has got at most [core_cap] new entries at its end, pairwise
    different, none of which it had before, each the title-cased form of a
    keyword; the first role's bullets are as they were or have got one
    sentence in front that names at most [bullet_cap] keywords.  Nothing
    else has changed.  A keyword is a token of the job text that the caller
    names by [is_kw]. *)
Definition injected_within (is_kw : string -> Prop)
    (sum_cap core_cap bullet_cap : nat) (p p' : Payload) : Prop :=
  (p_summary p' = p_summary p
   \/ exists kws, length kws <= sum_cap /\ Forall is_kw kws /\
        p_summary p'
        = Py.strip (p_summary p
                    ++ (if Py.truthy (p_summary p) then " " else "")
                    ++ focus_clause kws))
  /\ (exists kws added,
        length kws <= core_cap /\ Forall is_kw kws /\
        p_core_items p' = p_core_items p ++ added /\
        length added <= length kws /\ NoDup added /\
        forall x, x ∈ added -> ((x ∉ p_core_items p) /\ x ∈ map Py.title kws))
  /\ (p_experience p' = p_experience p
      \/ exists kws r0 rs, length kws <= bullet_cap /\ Forall is_kw kws /\
           p_experience p = r0 :: rs /\
           p_experience p'
           = set_bullets r0 (advanced_sentence kws :: r_bullets r0) :: rs)
  /\ p_name p' = p_name p
  /\ p_licenses_certs p' = p_licenses_certs p
  /\ p_education p' = p_education p.

(** ** Definitions for the further properties *)

(** The place of a grade on the scale, F lowest. *)
Definition grade_rank (g : string) : nat :=
  default 0
    (snd <$> find (fun kv => String.eqb g kv.1)
       [("A+", 10); ("A", 9); ("A-", 8); ("B+", 7); ("B", 6); ("B-", 5);
        ("C+", 4); ("C", 3); ("C-", 2); ("D", 1); ("F", 0)]).

(** The bullet [b] without outer whitespace and with single spaces. *)
Definition norm_line (b : string) : string := Py.collapse_ws (Py.strip b).

(** The line that [tighten_bullets] keeps for the bullet [b]. *)
Definition tight_line (b : string) : string :=
  Py.str_slice_to (norm_line b) 180.

(** The head of [l] is not whitespace. *)
Definition hd_ok (l : list ascii) : bool :=
  match l with [] => true | c :: _ => negb (Py.is_space c) end.

(** No whitespace but single spaces between other characters; [prev] tells
    that the character before [l] is whitespace. *)
Fixpoint single_spaced (prev : bool) (l : list ascii) : bool :=
  match l with
  | [] => true
  | c :: r =>
      if Py.is_space c
      then negb prev && Ascii.eqb c " " && single_spaced true r
      else single_spaced false r
  end.

(** ** [variant_b] (HogueResMaster_v11.py) *)

(** [\$\d] at the head of [s]. *)
Definition dollar_here (s : list ascii) : bool :=
  match s with
  | d :: x :: _ => (Py.code d =? 36)%N && Py.is_digit x
  | _ => false
  end.

(** [re.search(r"\b\d{1,3}%\b|\$\d", b)]: one of the two alternatives
    matches at some position.  [prev_word] tells that the previous character
    is a word character. *)
Fixpoint metric_go (prev_word : bool) (s : list ascii) : bool :=
  match s with
  | [] => false
  | c :: r =>
      (negb prev_word && pct_here s) || dollar_here s
      || metric_go (Py.is_word c) r
  end.

Definition outcome_verbs : list string :=
  ["reduced"; "increased"; "grew"; "launched"; "delivered"; "improved"].

(** The score [s] that the loop of [variant_b] gives to a bullet. *)
Definition bullet_score (b : string) : nat :=
  (if metric_go false (Py.chars b) then 2 else 0)
  + (if any_in outcome_verbs (Py.lower b) then 1 else 0).

(** [scored]: the triples [(s, idx, b)], [idx] counting from [idx0]. *)
Fixpoint scored_from (idx0 : nat) (bullets : list string)
  : list (nat * nat * string) :=
  match bullets with
  | [] => []
  | b :: rest => (bullet_score b, idx0, b) :: scored_from (S idx0) rest
  end.

(** The order of the key [(-x[0], x[1])]: higher score first, then lower
    index. *)
Definition rank_le (x y : nat * nat * string) : Prop :=
  y.1.1 < x.1.1 \/ (x.1.1 = y.1.1 /\ x.1.2 <= y.1.2).

#[global] Instance rank_le_dec : RelDecision rank_le.
Proof. intros x y. unfold rank_le. apply _. Defined.

Definition variant_b (bullets : list string) : list string :=
  match bullets with
  | [] => []
  | _ => map (fun x => x.2) (merge_sort rank_le (scored_from 0 bullets))
  end.

(** ** [recall_style] (HogueResMaster_v11.py) *)



(** ** Percent signs that the pattern of [detect_signals] can use *)


(** ** [enrich_from_vet_codes] (HogueResMaster_v11_final_fat.py) *)

Definition VET_CROSSWALK : list (string * string) :=
  [("11B", "Infantryman → Security/Operations Specialist");
   ("88M", "Motor Transport → Logistics/Driver Ops");
   ("68W", "Combat Medic → EMT/Patient Care Tech");
   ("35F", "Intel Analyst → Business/Threat Intelligence");
   ("3D1", "Client Systems → IT Support/Helpdesk");
   ("3D2", "Cyber Systems → Systems Admin/SRE")].

(** [\bk\b] at the head of [s], for a [k] made of word characters:
    the character before is not a word character, [s] starts with [k], and
    the character after [k], if any, is not a word character. *)
Definition word_here (prev_word : bool) (k s : list ascii) : bool :=
  negb prev_word && Py.starts_with k s
  && match drop (length k) s with
     | [] => true
     | c :: _ => negb (Py.is_word c)
     end.

(** [re.search(rf"\b{re.escape(k)}\b", text)] for such a [k]. *)
Fixpoint word_search_go (prev_word : bool) (k s : list ascii) : bool :=
  match s with
  | [] => false
  | c :: r => word_here prev_word k s || word_search_go (Py.is_word c) k r
  end.

Definition word_search (k text : string) : bool :=
  word_search_go false (Py.chars k) (Py.chars text).

(** The body of the loop over the crosswalk.  The payload has the key
    [core_items] ([build_payload] sets it). *)
Definition vet_step (resume_text : string) (core : list string)
    (entry : string * string) : list string :=
  if word_search entry.1 resume_text then
    if decide (entry.2 ∈ core) then core else core ++ [entry.2]
  else core.

Definition enrich_from_vet_codes (payload : Payload) (resume_text : string)
  : Payload :=
  set_core_items payload
    (fold_left (vet_step resume_text) VET_CROSSWALK (p_core_items payload)).

(** ** [top_needs_from_jd] (HogueResMaster_v11.py) *)

Definition need_words : list string :=
  ["responsib"; "require"; "experience"; "will"; "own"; "lead"; "qualif"].

(** The loop: the cap is tested at the end of every round. *)
Fixpoint needs_loop (picks : list string) (maxn : Z) (out : list string)
  : list string :=
  match picks with
  | [] => out
  | p :: rest =>
      let out' := if decide (p ∈ out) then out else out ++ [p] in
      if (maxn <=? Z.of_nat (length out'))%Z then out'
      else needs_loop rest maxn out'
  end.

Definition jd_lines (jd_txt : string) : list string :=
  map Py.strip
    (filter (fun ln => 6 < String.length (Py.strip ln)) (Py.splitlines jd_txt)).

Definition jd_picks (jd_txt : string) : list string :=
  filter (fun ln => any_in need_words (Py.lower ln) = true) (jd_lines jd_txt).

Definition top_needs_from_jd (jd_txt : string) (maxn : Z) : list string :=
  needs_loop (jd_picks jd_txt) maxn [].

(** ** [ToneKit.expand_once] (HogueResMaster_v11.py) *)

Definition ACRONYMS : list (string * string) :=
  [("ATS", "Applicant Tracking System"); ("KPI", "Key Performance Indicator");
   ("API", "Application Programming Interface"); ("CV", "Curriculum Vitae");
   ("GS", "General Schedule"); ("KSA", "Knowledge, Skills, and Abilities");
   ("EMR", "Electronic Medical Record"); ("EHR", "Electronic Health Record")].

(** The alternative of [\b(ATS|KPI|...)\b] that matches at the head of [s],
    the alternatives being tried in their order. *)
Definition acronym_here (prev_word : bool) (s : list ascii)
  : option (string * string) :=
  find (fun p => word_here prev_word (Py.chars p.1) s) ACRONYMS.

(** [re.sub(pattern, repl, text)], left to right.  [skip] counts the
    characters of a match that are still to be passed over; [seen] is
    [self._seen_acros], which [repl] reads and extends.  The result is the
    new text and the new [seen]. *)
Fixpoint expand_go (skip : nat) (prev_word : bool) (seen : gset string)
    (s : list ascii) : list ascii * gset string :=
  match s with
  | [] => ([], seen)
  | c :: r =>
      match skip with
      | S k => expand_go k (Py.is_word c) seen r
      | O =>
          match acronym_here prev_word s with
          | Some (ac, long) =>
              let '(txt, seen1) :=
                if decide (ac ∈ seen) then (Py.chars ac, seen)
                else (Py.chars (long ++ " (" ++ ac ++ ")"), {[ ac ]} ∪ seen) in
              let '(rest, seen2) :=
                expand_go (String.length ac - 1) (Py.is_word c) seen1 r in
              (txt ++ rest, seen2)
          | None =>
              let '(rest, seen2) := expand_go 0 (Py.is_word c) seen r in
              (c :: rest, seen2)
          end
      end
  end.

Definition expand_once (seen : gset string) (text : string)
  : string * gset string :=
  let '(out, seen') := expand_go 0 false seen (Py.chars text) in
  (Py.str out, seen').

(** A text without line boundary characters. *)
Definition no_break (l : list ascii) : Prop :=
  Forall (fun c => Py.is_linebreak c = false) l.

(** ** Style scores are doubles *)

(** A finite double is kept as the rational it stands for, in lowest terms.
    Rounding is to the nearest double, ties to the even significand, with
    53 bits of precision; exponent limits are left out, the style scores
    lying between 0 and 2. *)
Module F64.

(** [floor(log2 |q|)] for a non-zero [q]. *)
Definition ilog2 (q : Q) : Z :=
  let a := Qabs q in
  let e := (Z.log2 (Qnum a) - Z.log2 (Zpos (Qden a)))%Z in
  if Qle_bool (2 ^ e) a then e else (e - 1)%Z.

(** The double nearest to [q]. *)
Definition of_Q (q : Q) : Q :=
  if Qeq_bool q 0 then 0%Q
  else
    let s := (52 - ilog2 q)%Z in
    Qred (inject_Z (Py.round (q * 2 ^ s)) / 2 ^ s).

(** [a + b] and [a * b] on doubles. *)
Definition add (a b : Q) : Q := of_Q (a + b).
Definition mul (a b : Q) : Q := of_Q (a * b).

(** [n / d] on integers, [d] positive: the double nearest to the
    quotient. *)
Definition div_int (n : Z) (d : positive) : Q := of_Q (n # d).

(** [round(x, 2)]: the decimal with two places nearest to the exact value
    of [x], ties to even, read back as a double. *)
Definition round2 (x : Q) : Q := of_Q (inject_Z (Py.round (x * 100)) / 100).

Definition eqb (a b : Q) : bool :=
  (Qnum a =? Qnum b)%Z && (Qden a =? Qden b)%positive.

End F64.

(** ** Style ranking: [rank_styles] (HogueResMaster_v11.py) *)

Definition STYLE_ORDER : list string :=
  ["classic"; "hybrid"; "tech_ic"; "executive"; "healthcare"; "federal";
   "academic_cv"].

(** The weights are the doubles that the literals 0.6, 0.5, 0.3 and 0.2
    denote. *)
Definition STYLE_WEIGHTS : list (string * list (string * Q)) :=
  Eval vm_compute in
  [("federal", [("federal", F64.of_Q (6 # 10)); ("classic", F64.of_Q (2 # 10))]);
   ("healthcare", [("healthcare", F64.of_Q (5 # 10)); ("classic", F64.of_Q (2 # 10))]);
   ("academic", [("academic_cv", F64.of_Q (6 # 10)); ("classic", F64.of_Q (2 # 10))]);
   ("executive", [("executive", F64.of_Q (5 # 10)); ("classic", F64.of_Q (2 # 10))]);
   ("technical", [("tech_ic", F64.of_Q (5 # 10)); ("hybrid", F64.of_Q (2 # 10))]);
   ("metric_heavy", [("hybrid", F64.of_Q (3 # 10)); ("classic", F64.of_Q (2 # 10))])].

Definition SIGNALS : list string := map fst STYLE_WEIGHTS.

(** [STYLE_WEIGHTS.get(s, {}).items()] *)
Definition weights_of (s : string) : list (string * Q) :=
  match find (fun e => String.eqb e.1 s) STYLE_WEIGHTS with
  | Some e => e.2
  | None => []
  end.

(** [scores[style] += w] on the dictionary of scores in insertion order;
    every style of the weight table is a key of it. *)
Definition add_score (scores : list (string * Q)) (sw : string * Q)
  : list (string * Q) :=
  map (fun kv => if String.eqb kv.1 sw.1 then (kv.1, F64.add kv.2 sw.2) else kv)
      scores.

Definition signal_step (scores : list (string * Q)) (s : string)
  : list (string * Q) :=
  fold_left add_score (weights_of s) scores.

(** The order of the key [(-x[1], x[0])]. *)
Definition style_le (x y : string * Q) : Prop :=
  (y.2 < x.2)%Q \/ ((x.2 == y.2)%Q /\ String.le x.1 y.1).

#[global] Instance style_le_dec : RelDecision style_le.
Proof.
  intros x y. unfold style_le.
  destruct (Qlt_le_dec y.2 x.2) as [Hlt | Hle]; [left; by left |].
  destruct (Qeq_dec x.2 y.2) as [Heq | Hne].
  - destruct (decide (String.le x.1 y.1)) as [Hs | Hs]; [left; by right |].
    right. intros [Hlt | [_ Hs']]; [| done].
    by apply Qlt_not_le in Hlt.
  - right. intros [Hlt | [Heq _]]; [| done]. by apply Qlt_not_le in Hlt.
Defined.

Record Ranking := mkRanking
  { suggested : string; confidence : Q; also_good : string }.

(** [order] is the order in which [for s in sigs] visits the set. *)
Definition ranked_from (order : list string) : list (string * Q) :=
  merge_sort style_le
    (fold_left signal_step order (map (fun k => (k, 0%Q)) STYLE_ORDER)).

Definition rank_styles_from (order : list string) : Ranking :=
  match ranked_from order with
  | (top, conf) :: rest =>
      mkRanking top (F64.round2 conf)
        (match find (fun kv => negb (String.eqb kv.1 top)) rest with
         | Some kv => kv.1
         | None => "classic"
         end)
  | [] => mkRanking "" 0 "classic"
  end.

Definition rank_styles (set_list : gset string -> list string)
    (resume_txt jd_txt : string) : Ranking :=
  rank_styles_from (set_list (detect_signals resume_txt jd_txt)).

(** The orders in which a set of at most [fuel] of the [avail] signals can be
    visited. *)
Fixpoint arrangements (fuel : nat) (avail : list string)
  : list (list string) :=
  match fuel with
  | O => [[]]
  | S n =>
      [] :: flat_map (fun a =>
                        map (cons a)
                            (arrangements n (filter (fun b => b ≠ a) avail)))
                     avail
  end.

Definition ranking_eqb (a b : Ranking) : bool :=
  String.eqb (suggested a) (suggested b)
  && F64.eqb (confidence a) (confidence b)
  && String.eqb (also_good a) (also_good b).

(** The order of the weight table, restricted to the signals of [order]. *)
Definition canonical (order : list string) : list string :=
  filter (fun s => s ∈ order) SIGNALS.

(** The sublists of [l], in some order. *)
Fixpoint sublists_of (l : list string) : list (list string) :=
  match l with
  | [] => [[]]
  | a :: r => map (cons a) (sublists_of r) ++ sublists_of r
  end.

Definition scores_from (order : list string) : list (string * Q) :=
  fold_left signal_step order (map (fun k => (k, 0%Q)) STYLE_ORDER).

Fixpoint scores_eqb (a b : list (string * Q)) : bool :=
  match a, b with
  | [], [] => true
  | x :: a', y :: b' =>
      String.eqb x.1 y.1 && F64.eqb x.2 y.2 && scores_eqb a' b'
  | _, _ => false
  end.

(** Visiting one more signal after the signals of [c] in table order gives
    the scores of the enlarged set in table order. *)
Definition step_agrees (c : list string) (a : string) : bool :=
  bool_decide (a ∈ c)
  || scores_eqb (signal_step (scores_from c) a)
                (scores_from (canonical (c ++ [a]))).

(** [set_list] tells in which order a set is visited. *)
Definition enumerates (set_list : gset string -> list string) : Prop :=
  forall X : gset string,
    NoDup (set_list X) /\ forall x, x ∈ set_list X <-> x ∈ X.

(** Properties of a ranking that are checked on the table of all sets of
    signals. *)
Definition shape_ok (X : gset string) (R : Ranking) : bool :=
  bool_decide (suggested R ∈ STYLE_ORDER)
  && bool_decide (also_good R ∈ STYLE_ORDER)
  && negb (String.eqb (also_good R) (suggested R))
  && Qle_bool 0 (confidence R) && Qle_bool (confidence R) 1
  && Bool.eqb (String.eqb (suggested R) "classic")
              (bool_decide (3 <= size (X ∖ {[ "technical" ]}))).

Definition lone_ok (X : gset string) (R : Ranking) : bool :=
  match elements X with
  | [] => ranking_eqb R (mkRanking "academic_cv" 0 "classic")
  | [s] =>
      match weights_of s with
      | [(st1, w1); (st2, _)] =>
          ranking_eqb R (mkRanking st1 w1 st2)
      | _ => false
      end
  | _ => true
  end.

(** ** [optimize_to_target] (HogueResMaster_v9_2_2.py) *)

Section Optimize.
Variable ats_score : string -> Z.
Variable set_list : gset string -> list string.

(** [for _ in range(max_iters)], with [iters] rounds left.  The
    [composite_scores] of v9.2.2 has the text of the fat build's. *)
Fixpoint optimize_loop (iters : nat) (payload : Payload) (jd_text : string)
    (target : Z) : Payload :=
  match iters with
  | O => payload
  | S k =>
      let txt := V9.payload_to_text payload in
      let '(_, _, hire, _) := Fat.composite_scores ats_score jd_text txt in
      if (target <=? hire)%Z then payload
      else
        let payload :=
          V9.inject_keywords set_list payload jd_text (2, 2, 2)%Z in
        let payload := V9.inject_metric_shell payload in
        optimize_loop k payload jd_text target
  end.

Definition optimize_to_target (payload : Payload) (jd_text : string)
    (target max_iters : Z) : Payload :=
  optimize_loop (Z.to_nat max_iters) payload jd_text target.
End Optimize.

(** [p'] is [p] with at most [nc] entries appended to the core list and at
    most [nb] lines put in front of the first role's bullets, each line the
    metric placeholder or an injected sentence; the name, the licences, the
    education and the other roles are as they were.  The summary is left
    open. *)
Definition grown (nc nb : nat) (p p' : Payload) : Prop :=
  p_name p' = p_name p
  /\ p_licenses_certs p' = p_licenses_certs p
  /\ p_education p' = p_education p
  /\ (exists added,
        p_core_items p' = p_core_items p ++ added /\ length added <= nc)
  /\ match p_experience p with
     | [] => p_experience p' = []
     | r0 :: rs =>
         exists front,
           p_experience p' = set_bullets r0 (front ++ r_bullets r0) :: rs
           /\ length front <= nb
           /\ Forall (fun b => b = METRIC_SHELL
                               \/ exists kws, b = advanced_sentence kws) front
     end.

(** The backslash does not occur in [x]. *)
Definition no_backslash (x : string) : Prop :=
  Forall (fun c => c <> ascii_of_N 92) (Py.chars x).

(** The number of metric placeholders among [lines]. *)
Definition shells_in (lines : list string) : nat :=
  length (filter (fun b => b = METRIC_SHELL) lines).

(** ** Scan health: the arithmetic of [ats_score] *)

(** [min(1.0, x)] *)
Definition min_one (x : Q) : Q := if Qle_bool 1 x then 1%Q else x.

(** [ats_score] from its three counts: the action verbs found, the numeric
    tokens and the links.  The counts come from regular expressions over
    the text; the arithmetic on them is on doubles. *)
Definition ats_from_counts (vcount nums urls : nat) : Z :=
  let raw :=
    F64.add
      (F64.add
         (F64.mul (F64.of_Q (5 # 10))
                  (min_one (F64.div_int (Z.of_nat vcount) 18)))
         (F64.mul (F64.of_Q (3 # 10))
                  (min_one (F64.div_int (Z.of_nat nums) 12))))
      (F64.mul (F64.of_Q (2 # 10))
               (min_one (F64.div_int (Z.of_nat urls) 3))) in
  Py.round (F64.mul raw 100).

Definition ats_ok (v n u : nat) : bool :=
  (0 <=? ats_from_counts v n u)%Z && (ats_from_counts v n u <=? 100)%Z.

(** [f] holds below the counts at which the three terms stop growing. *)
Definition below_caps (f : nat -> nat -> nat -> bool) : bool :=
  forallb (fun v => forallb (fun n => forallb (f v n) (seq 0 4)) (seq 0 13))
          (seq 0 19).

(** * Theorems *)

(** ** Rounding and the grade table *)

Lemma round_nearest_even (q : Q) : nearest_even q (Py.round q).
Proof.
  destruct q as [n d]. unfold nearest_even, Py.round. cbn [Qnum Qden].
  pose proof (Z.div_mod n (Z.pos d) ltac:(lia)) as Hdm.
  pose proof (Z.mod_pos_bound n (Z.pos d) ltac:(lia)) as Hb.
  set (f := (n / Z.pos d)%Z) in *. set (r := (n mod Z.pos d)%Z) in *.
  assert (Hq : forall z : Z,
             (Qabs ((n # d) - inject_Z z) <= 1 # 2)%Q <->
             (2 * Z.abs (n - z * Z.pos d) <= Z.pos d)%Z).
  { intros z. unfold Qle, Qabs, Qminus, Qplus, Qopp, inject_Z. cbn.
    rewrite Pos.mul_1_r. lia. }
  assert (He : forall z : Z,
             (Qabs ((n # d) - inject_Z z) == 1 # 2)%Q <->
             (2 * Z.abs (n - z * Z.pos d) = Z.pos d)%Z).
  { intros z. unfold Qeq, Qabs, Qminus, Qplus, Qopp, inject_Z. cbn.
    rewrite Pos.mul_1_r. lia. }
  destruct (Z.ltb_spec (2 * r) (Z.pos d)).
  { split; [apply Hq; lia | intros H'; apply He in H'; lia]. }
  destruct (Z.ltb_spec (Z.pos d) (2 * r)).
  { split; [apply Hq; lia | intros H'; apply He in H'; lia]. }
  destruct (Z.even f) eqn:Hev.
  - split; [apply Hq; lia | done].
  - split; [apply Hq; lia |].
    intros _. rewrite Z.even_add, Hev. done.
Qed.

(** Membership of a listed element. *)
Ltac in_list := solve [repeat constructor].

(** A decidable closed proposition, settled by evaluation. *)
Ltac by_compute := apply (bool_decide_unpack _); vm_compute; exact I.

(** Every entry of the table, one hypothesis each. *)
Lemma grade_table_forall (P : Z -> string -> Prop) :
  (forall b g, (b, g) ∈ grade_table -> P b g) <->
  P 97%Z "A+" /\ P 93%Z "A" /\ P 90%Z "A-" /\ P 87%Z "B+" /\ P 83%Z "B"
  /\ P 80%Z "B-" /\ P 77%Z "C+" /\ P 73%Z "C" /\ P 70%Z "C-" /\ P 60%Z "D".
Proof.
  unfold grade_table. split.
  - intros H. repeat split; apply H; in_list.
  - intros H b g Hin.
    repeat (apply elem_of_cons in Hin as [Hin | Hin];
            [injection Hin as -> ->; tauto |]).
    by apply elem_of_nil in Hin.
Qed.

Ltac grade_cases :=
  unfold letter_grade;
  repeat match goal with
         | |- context [(?k <=? ?x)%Z] => destruct (Z.leb_spec k x)
         end.

Lemma letter_grade_table (h : Z) (g : string) :
  table_grade h g <-> letter_grade h = g.
Proof.
  split.
  - unfold table_grade. intros [(b & Hin & Hle & Hmax) | [-> Hlow]].
    + apply (grade_table_forall (fun b' _ => (b' <= h)%Z -> (b' <= b)%Z))
        in Hmax.
      revert Hin. unfold grade_table.
      repeat (rewrite elem_of_cons; intros [Hin | Hin];
              [injection Hin as -> ->; grade_cases; first [done | lia]
              | revert Hin]).
      intros Hin. by apply elem_of_nil in Hin.
    + apply (grade_table_forall (fun b' _ => (h < b')%Z)) in Hlow.
      grade_cases; first [done | lia].
  - intros <-.
    assert (Hcases :
      forall b g', (b, g') ∈ grade_table -> (b <= h)%Z ->
        (forall b2 g2, (b2, g2) ∈ grade_table -> (b2 <= h)%Z -> (b2 <= b)%Z) ->
        table_grade h g').
    { intros b g' ? ? ?. left. eauto. }
    assert (Hlow : (forall b g', (b, g') ∈ grade_table -> (h < b)%Z) ->
                   table_grade h "F").
    { intros ?. right. eauto. }
    grade_cases.
    all: try (match goal with
              | H : (?k <= ?x)%Z |- table_grade ?x ?g' =>
                  apply (Hcases k g'); [unfold grade_table; in_list | lia |];
                  apply (grade_table_forall
                           (fun b _ => (b <= x)%Z -> (b <= k)%Z));
                  lia
              end).
    apply Hlow, (grade_table_forall (fun b _ => (h < b)%Z)). lia.
Qed.

(** ** Strings and runs *)

Lemma chars_str (l : list ascii) : Py.chars (Py.str l) = l.
Proof. apply list_ascii_of_string_of_list_ascii. Qed.

Lemma str_chars (s : string) : Py.str (Py.chars s) = s.
Proof. apply string_of_list_ascii_of_string. Qed.

Lemma length_str (l : list ascii) : String.length (Py.str l) = length l.
Proof. induction l as [| c l IH]; simpl; [done | by rewrite IH]. Qed.

Lemma elem_of_rev {A} (x : A) (l : list A) : x ∈ rev l <-> x ∈ l.
Proof. rewrite !list_elem_of_In. symmetry. apply in_rev. Qed.

Lemma lower_char_alpha (c : ascii) :
  Py.is_alpha (Py.lower_char c) = true -> Py.is_lower (Py.lower_char c) = true.
Proof. destruct c as [[] [] [] [] [] [] [] []]; vm_compute; congruence. Qed.

(** Every string that [runs_go] returns is a run of at least [minlen]
    characters of the class, taken from the run in progress or from the
    text still to read. *)
Lemma runs_go_spec (p : ascii -> bool) (minlen : nat) (s cur : list ascii)
    (t : string) :
  Forall (fun c => p c = true) cur ->
  t ∈ Py.runs_go p minlen cur s ->
  minlen <= String.length t
  /\ Forall (fun c => p c = true) (Py.chars t)
  /\ forall c, c ∈ Py.chars t -> c ∈ cur \/ c ∈ s.
Proof.
  assert (Hemit : forall cur' : list ascii,
    Forall (fun c => p c = true) cur' ->
    t ∈ Py.emit_run minlen cur' ->
    minlen <= String.length t
    /\ Forall (fun c => p c = true) (Py.chars t)
    /\ forall c, c ∈ Py.chars t -> c ∈ cur').
  { intros cur' Hcur'. unfold Py.emit_run.
    destruct (Nat.leb_spec minlen (length cur')); [| by intros ?%elem_of_nil].
    intros ->%list_elem_of_singleton.
    rewrite length_str, length_rev, chars_str. split; [done |]. split.
    - by apply Forall_rev.
    - intros c. by rewrite elem_of_rev. }
  revert cur. induction s as [| c s IH]; intros cur Hcur; simpl.
  - intros Ht. destruct (Hemit cur Hcur Ht) as (? & ? & ?). naive_solver.
  - destruct (p c) eqn:Hp.
    + intros Ht. destruct (IH (c :: cur) ltac:(by constructor) Ht)
        as (? & ? & Hin).
      split; [done |]. split; [done |].
      intros c' Hc'. destruct (Hin c' Hc') as [Hc | Hc]; [| set_solver].
      apply elem_of_cons in Hc as [-> | Hc]; set_solver.
    + rewrite elem_of_app. intros [Ht | Ht].
      * destruct (Hemit cur Hcur Ht) as (? & ? & ?). naive_solver.
      * destruct (IH [] ltac:(constructor) Ht) as (? & ? & Hin).
        split; [done |]. split; [done |].
        intros c' Hc'. destruct (Hin c' Hc') as [Hc | Hc]; set_solver.
Qed.

(** A token of the lowercased text: at least two characters, all of them
    lowercase ASCII letters. *)
Definition is_token (t : string) : Prop :=
  2 <= String.length t /\ Forall (fun c => Py.is_lower c = true) (Py.chars t).

Lemma findall_alpha_lower (text t : string) :
  t ∈ Py.findall_runs Py.is_alpha 2 (Py.lower text) -> is_token t.
Proof.
  intros Ht. apply runs_go_spec in Ht as (Hlen & Hall & Hin); [| constructor].
  split; [done |]. rewrite Forall_forall in Hall |- *.
  intros c Hc. specialize (Hall c Hc).
  destruct (Hin c Hc) as [[]%elem_of_nil | Hlow].
  unfold Py.lower in Hlow. rewrite chars_str in Hlow.
  apply list_elem_of_fmap in Hlow as (c0 & -> & _).
  by apply lower_char_alpha.
Qed.

(** ** The loop of [kw_set] *)

Lemma filter_neq_not_in (out : list string) (t : string) (l : list string) :
  filter (fun y => y ∉ out ++ [t]) l
  = filter (fun y => y ∉ out) (filter (fun y => y ≠ t) l).
Proof.
  induction l as [| y l IH]; [done |].
  rewrite (filter_cons (fun y => y ≠ t)).
  destruct (decide (y ≠ t)) as [Hne | Heq].
  - rewrite !filter_cons, IH.
    destruct (decide (y ∉ out ++ [t])) as [H1 | H1];
      destruct (decide (y ∉ out)) as [H2 | H2]; try done; set_solver.
  - rewrite filter_cons, IH.
    destruct (decide (y ∉ out ++ [t])) as [H1 | H1]; [set_solver | done].
Qed.

Lemma kw_loop_first_seen (toks : list string) (seen : gset string)
    (out : list string) :
  (forall x, x ∈ seen <-> x ∈ out) ->
  kw_loop toks seen out = out ++ filter (fun y => y ∉ out) (first_seen toks).
Proof.
  revert seen out. induction toks as [| t toks IH]; intros seen out Hseen.
  - simpl. by rewrite app_nil_r.
  - cbn [kw_loop first_seen]. destruct (decide (t ∈ seen)) as [Hin | Hnin].
    + rewrite (IH seen out Hseen), filter_cons.
      destruct (decide (t ∉ out)) as [Hno | _]; [by apply Hseen in Hin |].
      f_equal. clear IH. induction (first_seen toks) as [| y l IHl]; [done |].
      rewrite (filter_cons (fun y => y ≠ t)).
      destruct (decide (y ≠ t)) as [Hne | Heq].
      * rewrite !filter_cons, IHl. done.
      * apply dec_stable in Heq as ->. rewrite filter_cons, IHl.
        destruct (decide (t ∉ out)) as [Hno | _]; [| done].
        by apply Hseen in Hin.
    + rewrite (IH ({[ t ]} ∪ seen) (out ++ [t])) by set_solver.
      rewrite filter_cons.
      destruct (decide (t ∉ out)) as [_ | Hno].
      * rewrite <- app_assoc. simpl. by rewrite filter_neq_not_in.
      * exfalso. apply Hno. by rewrite <- Hseen.
Qed.

Lemma first_seen_elem (l : list string) (x : string) :
  x ∈ first_seen l <-> x ∈ l.
Proof.
  induction l as [| y l IH]; [done |]. simpl.
  rewrite !elem_of_cons, list_elem_of_filter, IH.
  destruct (decide (x = y)); naive_solver.
Qed.

Lemma first_seen_NoDup (l : list string) : NoDup (first_seen l).
Proof.
  induction l as [| y l IH]; simpl; [constructor |].
  constructor.
  - rewrite list_elem_of_filter. naive_solver.
  - by apply NoDup_filter.
Qed.

Lemma kw_loop_start (toks : list string) :
  kw_loop toks ∅ [] = first_seen toks.
Proof.
  rewrite (kw_loop_first_seen toks ∅ []) by set_solver. simpl.
  induction (first_seen toks) as [| y l IH]; [done |].
  rewrite filter_cons.
  destruct (decide (y ∉ [])) as [_ | H]; [by rewrite IH | set_solver].
Qed.

Lemma slice_to_nonneg {A} (l : list A) (n : Z) :
  (0 <= n)%Z -> Py.slice_to l n = take (Z.to_nat n) l.
Proof. intros H. unfold Py.slice_to. by destruct (Z.leb_spec 0 n); [| lia]. Qed.

Lemma slice_to_sublist {A} (l : list A) (n : Z) : sublist (Py.slice_to l n) l.
Proof. unfold Py.slice_to. destruct (0 <=? n)%Z; apply sublist_take. Qed.

(** ** Composite score and grade *)

(** C1.  In both builds the hire likelihood is the coverage/scan-health
    average rounded to the nearest integer (ties to even, as Python's
    [round] does), and the grade is the step function of the table with
    inclusive lower bounds; 97 gives A+ and 96 gives A. *)
Theorem C1_hire_and_grade (ats_score : string -> Z) (jd txt : string) :
  let s := V11.composite_scores ats_score jd txt in
  let f := Fat.composite_scores ats_score jd txt in
  let avg (cov ats : Z) := ((1 # 2) * inject_Z cov + (1 # 2) * inject_Z ats)%Q in
  (sc_hire s = Py.round (avg (sc_match s) (sc_scan s))
   /\ nearest_even (avg (sc_match s) (sc_scan s)) (sc_hire s)
   /\ forall g, table_grade (sc_hire s) g <-> g = sc_grade s)
  /\ (f.1.2 = Py.round (avg f.1.1.1 f.1.1.2)
      /\ nearest_even (avg f.1.1.1 f.1.1.2) f.1.2
      /\ forall g, table_grade f.1.2 g <-> g = f.2)
  /\ letter_grade 97 = "A+" /\ letter_grade 96 = "A".
Proof.
  assert (Hstep : forall h g, table_grade h g <-> g = letter_grade h).
  { intros h g. rewrite letter_grade_table. naive_solver. }
  cbv beta zeta iota
      delta [V11.composite_scores Fat.composite_scores hire_of
             sc_hire sc_match sc_scan sc_grade fst snd].
  generalize (coverage_of (V11.kw_set jd 400) (V11.kw_set txt 400)).
  generalize (coverage_of (Fat.kw_set jd 400) (Fat.kw_set txt 400)).
  generalize (ats_score txt). intros ats cov_fat cov_v11.
  split; [| split; [| split; reflexivity]].
  - split; [reflexivity |].
    split; [exact (round_nearest_even _) | exact (Hstep _)].
  - split; [reflexivity |].
    split; [exact (round_nearest_even _) | exact (Hstep _)].
Qed.

(** ** Coverage *)

Lemma round_full_ratio (m : Z) :
  (0 < m)%Z -> Py.round (inject_Z (100 * m) / inject_Z (Z.max 1 m)) = 100%Z.
Proof.
  intros Hm. rewrite Z.max_r by lia. destruct m as [| p |]; try lia.
  unfold Py.round, Qdiv, Qinv, Qmult, inject_Z. cbn [Qnum Qden].
  rewrite Pos.mul_1_l, Z.mul_1_r, Z.div_mul, Z.mod_mul by lia.
  destruct (Z.ltb_spec (2 * 0) (Z.pos p)); [done | lia].
Qed.

Lemma coverage_full (jks tks : gset string) :
  jks ≠ ∅ -> jks ⊆ tks -> coverage_of jks tks = 100%Z.
Proof.
  intros Hne Hsub. unfold coverage_of.
  replace (jks ∩ tks) with jks by set_solver.
  apply round_full_ratio.
  assert (size jks ≠ 0).
  { rewrite size_non_empty_iff. by intros ?%leibniz_equiv. }
  lia.
Qed.

(** C7, as amended.  When the keyword set of the job text is not empty and
    the candidate's keyword set contains it, the coverage score is 100. *)
Theorem C7_full_coverage (ats_score : string -> Z) (jd txt : string) :
  V11.kw_set jd 400 ≠ ∅ ->
  V11.kw_set jd 400 ⊆ V11.kw_set txt 400 ->
  sc_match (V11.composite_scores ats_score jd txt) = 100%Z.
Proof. intros Hne Hsub. by apply coverage_full. Qed.

Lemma C7_full_coverage_witness :
  sc_match (V11.composite_scores (fun _ => 0%Z)
              "Lead adoption programs" "Led adoption programs; lead teams")
  = 100%Z.
Proof.
  apply C7_full_coverage.
  - intros H. apply (f_equal size) in H. vm_compute in H. discriminate.
  - by_compute.
Defined.

(** C7, as stated, fails: a job text with no token of two letters is not
    empty, its (empty) keyword set is contained in every keyword set, and
    the [max(1, ...)] floor makes the coverage 0. *)
Lemma C7_counterexample :
  "!" ≠ ""
  /\ V11.kw_set "!" 400 ⊆ V11.kw_set "" 400
  /\ forall ats_score,
       sc_match (V11.composite_scores ats_score "!" "") = 0%Z.
Proof.
  split; [done |]. split.
  - by_compute.
  - intros ats_score. vm_compute. reflexivity.
Qed.

(** ** Keyword sets *)

(** What the loop and the slice of [kw_set] give for a non-negative cap:
    the first occurrences of the tokens, cut to the cap. *)
Lemma kw_slice_spec (toks : list string) (cap : Z) :
  (0 <= cap)%Z ->
  let l := Py.slice_to (kw_loop toks ∅ []) cap in
  l = take (Z.to_nat cap) (first_seen toks)
  /\ NoDup l
  /\ size (list_to_set (C := gset string) l) = length l
  /\ length l <= Z.to_nat cap
  /\ forall x, x ∈ l -> x ∈ toks.
Proof.
  intros Hcap l. subst l. rewrite kw_loop_start, slice_to_nonneg by done.
  assert (Hnd : NoDup (take (Z.to_nat cap) (first_seen toks))).
  { apply (sublist_NoDup _ (first_seen toks));
      [apply first_seen_NoDup | apply sublist_take]. }
  split; [done |]. split; [done |]. split; [by apply size_list_to_set |].
  split; [rewrite length_take; lia |].
  intros x Hx. apply first_seen_elem.
  eapply elem_of_submseteq; [done |].
  apply sublist_submseteq, sublist_take.
Qed.

(** The fat build (and v9.2.2) does what C8 says, for every text and every
    non-negative cap: the keyword set consists of lowercase alphabetic
    tokens of at least two letters that are not stopwords, taken in
    first-seen order without repetition and cut to the cap. *)
Lemma Fat_kw_set_spec (text : string) (cap : Z) :
  (0 <= cap)%Z ->
  Fat.kw_list text cap
    = take (Z.to_nat cap) (first_seen (Fat.clean_tokens text))
  /\ NoDup (Fat.kw_list text cap)
  /\ size (Fat.kw_set text cap) <= Z.to_nat cap
  /\ forall t, t ∈ Fat.kw_set text cap -> is_token t /\ t ∉ Fat.STOPWORDS.
Proof.
  intros Hcap. unfold Fat.kw_set, Fat.kw_list.
  destruct (kw_slice_spec (Fat.clean_tokens text) cap Hcap)
    as (Heq & Hnd & Hsize & Hlen & Hin).
  split; [done |]. split; [done |]. split; [lia |].
  intros t Ht. apply elem_of_list_to_set, Hin in Ht.
  unfold Fat.clean_tokens in Ht. apply list_elem_of_filter in Ht as [Hstop Ht].
  split; [by eapply findall_alpha_lower | done].
Qed.

(** X27.  In the v11 build, for every text and every non-negative cap,
    the keyword list is the first-seen distinct tokens of the lowercased
    text cut to the cap: no token twice, at most [cap] of them, each at
    least two lowercase letters.  Stopwords are not removed. *)
Lemma V11_kw_set_spec (text : string) (cap : Z) :
  (0 <= cap)%Z ->
  V11.kw_list text cap
    = take (Z.to_nat cap) (first_seen (V11.clean_tokens text))
  /\ NoDup (V11.kw_list text cap)
  /\ size (V11.kw_set text cap) <= Z.to_nat cap
  /\ forall t, t ∈ V11.kw_set text cap -> is_token t.
Proof.
  intros Hcap. unfold V11.kw_set, V11.kw_list.
  destruct (kw_slice_spec (V11.clean_tokens text) cap Hcap)
    as (Heq & Hnd & Hsize & Hlen & Hin).
  split; [done |]. split; [done |]. split; [lia |].
  intros t Ht. apply elem_of_list_to_set, Hin in Ht.
  by eapply findall_alpha_lower.
Qed.

(** C8.  The v11 build does not remove stopwords: its [clean_tokens] has no
    filter, so "the" and "and" stay in the keyword set.  The fat build
    removes them from the same text. *)
Theorem C8_v11_keeps_stopwords :
  V11.kw_list "The cat and the dog" 400 = ["the"; "cat"; "and"; "dog"]
  /\ "the" ∈ Fat.STOPWORDS
  /\ "the" ∈ V11.kw_set "The cat and the dog" 400
  /\ Fat.kw_list "The cat and the dog" 400 = ["cat"; "dog"].
Proof.
  split; [by vm_compute |]. split; [by_compute |]. split; [by_compute |].
  by vm_compute.
Qed.

(** ** Bullets *)

(** C3.  [tighten_bullets] computes the de-duplication key before it cuts
    the line to 180 characters.  Two bullets that differ after their 180th
    character are both kept and both cut to the same text: the output has
    two equal entries, and tightening it again drops one of them.  With a
    cap of 0 one bullet is still returned, the cap being tested after the
    append. *)
Theorem C3_tighten_duplicates_after_cut :
  let x := [long_bullet "x"; long_bullet "y"] in
  let once := tighten_bullets V11_defaults x 6 in
  once = [long_bullet ""; long_bullet ""]
  /\ tighten_bullets V11_defaults once 6 = [long_bullet ""]
  /\ tighten_bullets V11_defaults once 6 ≠ once
  /\ tighten_bullets V11_defaults ["a"] 0 = ["a"].
Proof.
  cbv zeta. split; [by vm_compute |]. split; [by vm_compute |].
  split; [| by vm_compute]. vm_compute. discriminate.
Qed.

(** ** Metric placeholder *)

(** The fat build does what C5 says: without a digit in the bullets of the
    first role the placeholder is put in front of them, and it carries the
    marker and no digit; with a digit the payload comes back as it was. *)
Lemma Fat_ensure_metric_shell_spec (payload : Payload) (r0 : Role)
    (rs : list Role) :
  p_experience payload = r0 :: rs ->
  (Forall (fun b => has_digit b = false) (r_bullets r0) ->
   FatEnrich.ensure_metric_shell payload
   = set_experience payload
       (set_bullets r0 (METRIC_SHELL :: r_bullets r0) :: rs))
  /\ (Exists (fun b => has_digit b = true) (r_bullets r0) ->
      FatEnrich.ensure_metric_shell payload = payload)
  /\ has_digit METRIC_SHELL = false
  /\ Py.contains "[CONFIRM]" METRIC_SHELL = true.
Proof.
  intros Hexp. unfold FatEnrich.ensure_metric_shell. rewrite Hexp.
  split; [| split; [| split; by vm_compute]].
  - intros Hall.
    assert (existsb has_digit (r_bullets r0) = false) as ->; [| done].
    induction Hall as [| b l Hb _ IH]; simpl; [done | by rewrite Hb, IH].
  - intros Hex.
    assert (existsb has_digit (r_bullets r0) = true) as ->; [| done].
    induction Hex as [b l Hb | b l _ IH]; simpl;
      [by rewrite Hb | by rewrite IH, orb_true_r].
Qed.

(** C5.  In v9.2.2 the test of [inject_metric_shell] looks for a backslash
    followed by the letter d, not for a digit: the placeholder is added to a
    role whose bullet already has the figure 14.  The fat build leaves the
    same payload unchanged. *)
Theorem C5_v9_adds_shell_despite_digit :
  Exists (fun b => has_digit b = true)
    (r_bullets (mkRole "Acme" "Analyst" "2019-2024"
                  ["Grew revenue 14% year over year."]))
  /\ V9.inject_metric_shell metric_payload
     = mkPayload "Candidate" "Summary." ["Reporting"]
         [mkRole "Acme" "Analyst" "2019-2024"
            [METRIC_SHELL; "Grew revenue 14% year over year."]]
         [] "B.A."
  /\ V9.inject_metric_shell metric_payload ≠ metric_payload
  /\ FatEnrich.ensure_metric_shell metric_payload = metric_payload.
Proof.
  split; [by apply Exists_cons_hd; vm_compute |].
  split; [by vm_compute |]. split; [| by vm_compute].
  vm_compute. discriminate.
Qed.

(** ** Style signals *)

Lemma elem_of_detect_federal (resume_txt jd_txt : string) :
  "federal" ∈ detect_signals resume_txt jd_txt
  <-> any_in federal_markers (Py.lower (resume_txt ++ " " ++ jd_txt)) = true.
Proof.
  unfold detect_signals, federal_markers.
  repeat match goal with
         | |- context [if ?b then _ else _] => destruct b
         end; set_solver.
Qed.

(** C9, as amended.  The federal signal is detected exactly when the
    lowercased resume and job text contain "usajobs", " gs-" or
    "specialized experience".  A text with none of them does not carry the
    signal, whether or not the job text has the closing-time phrase. *)
Theorem C9_federal_needs_marker (resume_txt jd_txt : string) :
  any_in federal_markers (Py.lower (resume_txt ++ " " ++ jd_txt)) = false ->
  "federal" ∉ detect_signals resume_txt jd_txt.
Proof. rewrite elem_of_detect_federal. congruence. Qed.

Lemma C9_federal_needs_marker_witness :
  detect_closing_et scenario_job
  = "Submit by 11:59 p.m. Eastern Time on the closing date."
  /\ "federal" ∉ detect_signals scenario_candidate scenario_job.
Proof.
  split; [by vm_compute |].
  apply C9_federal_needs_marker. by vm_compute.
Defined.

(** C9, as stated, fails on the scenario: the job text has the phrase
    "11:59 p.m. Eastern", [detect_closing_et] recognises it, and the
    federal signal is not in the detected set. *)
Lemma C9_counterexample :
  Py.contains "11:59 p.m. Eastern" scenario_job = true
  /\ detect_closing_et scenario_job ≠ ""
  /\ "federal" ∉ detect_signals scenario_candidate scenario_job.
Proof.
  split; [by vm_compute |]. split; [by vm_compute |].
  rewrite elem_of_detect_federal. by vm_compute.
Qed.

(** ** Evidence guard *)

Lemma guard_loop_keeps (basis : string) (lines kept : list string) :
  guard_loop basis lines kept = kept ++ lines.
Proof.
  revert kept. induction lines as [| ln lines IH]; intros kept; simpl.
  - by rewrite app_nil_r.
  - destruct (_ || _); rewrite IH, <- app_assoc; done.
Qed.

(** C10.  With the evidence-only flag on, [evidence_guard] returns the
    non-blank lines of the cover text joined by newlines, whatever the
    resume and the job text are. *)
Theorem C10_evidence_guard_keeps_lines (V : Flags)
    (cover_text resume_text jd_text resume_text' jd_text' : string) :
  evidence_only V = true ->
  evidence_guard V cover_text resume_text jd_text
  = Py.join NL (filter nonblank (Py.splitlines cover_text))
  /\ evidence_guard V cover_text resume_text jd_text
     = evidence_guard V cover_text resume_text' jd_text'.
Proof.
  intros Hflag. unfold evidence_guard. rewrite Hflag. simpl.
  by rewrite !guard_loop_keeps.
Qed.

Lemma C10_evidence_guard_keeps_lines_witness :
  evidence_guard V11_defaults
    ("Dear team," ++ NL ++ "   " ++ NL ++ "I flew to the moon.")
    "resume" "job"
  = Py.join NL (filter nonblank
      (Py.splitlines ("Dear team," ++ NL ++ "   " ++ NL ++ "I flew to the moon.")))
  /\ evidence_guard V11_defaults
       ("Dear team," ++ NL ++ "   " ++ NL ++ "I flew to the moon.")
       "resume" "job"
     = evidence_guard V11_defaults
         ("Dear team," ++ NL ++ "   " ++ NL ++ "I flew to the moon.")
         "moon landing" "flew".
Proof. apply C10_evidence_guard_keeps_lines. reflexivity. Defined.

(** ** Build signature *)

#[local] Instance key_le_trans : Transitive Json.key_le.
Proof. intros a b c. unfold Json.key_le. apply transitivity. Qed.

#[local] Instance key_le_total : Total Json.key_le.
Proof. intros a b. unfold Json.key_le. apply total, _. Qed.

Lemma NoDup_fst_eq {A} (l : list (string * A)) (x y : string * A) :
  NoDup l.*1 -> x ∈ l -> y ∈ l -> x.1 = y.1 -> x = y.
Proof.
  induction l as [| z l IH]; [by intros _ ?%elem_of_nil |].
  rewrite fmap_cons, NoDup_cons, !elem_of_cons.
  intros [Hz Hnd] [-> | Hx] [-> | Hy] Heq; [done | | | by apply IH].
  - exfalso. apply Hz. rewrite Heq. by apply list_elem_of_fmap_2.
  - exfalso. apply Hz. rewrite <- Heq. by apply list_elem_of_fmap_2.
Qed.

(** Sorting by key forgets the insertion order of a dictionary. *)
Lemma sort_items_perm (l l' : list (string * string)) :
  NoDup l.*1 -> l ≡ₚ l' ->
  merge_sort Json.key_le l = merge_sort Json.key_le l'.
Proof.
  intros Hnd Hperm. apply (Sorted_unique_strong Json.key_le).
  - intros x1 x2 Hx1 Hx2 H12 H21.
    rewrite merge_sort_Permutation in Hx1.
    rewrite merge_sort_Permutation, <- Hperm in Hx2.
    apply (NoDup_fst_eq l); [done .. |].
    unfold Json.key_le in *. by apply (anti_symm String.le).
  - apply Sorted_merge_sort, _.
  - apply Sorted_merge_sort, _.
  - by rewrite !merge_sort_Permutation.
Qed.

Lemma dumps_obj (items : list (string * Json.value)) :
  Json.dumps (Json.JObj items)
  = ("{" ++ Py.join ", "
              (map Json.item_text
                 (merge_sort Json.key_le (map render_item items)))
         ++ "}")%string.
Proof. reflexivity. Qed.

Lemma dumps_obj_perm (items items' : list (string * Json.value)) :
  NoDup items.*1 -> items ≡ₚ items' ->
  Json.dumps (Json.JObj items) = Json.dumps (Json.JObj items').
Proof.
  intros Hnd Hperm. rewrite !dumps_obj.
  rewrite (sort_items_perm (map render_item items) (map render_item items'));
    [done | |].
  - assert (Hk : (map render_item items).*1 = items.*1).
    { clear. induction items as [| [k v] l IH]; [done |]. cbn. by f_equal. }
    by rewrite Hk.
  - by apply Permutation_map.
Qed.

(** C6.  The signature is a function of its four inputs, and it does not
    depend on the order in which the fields of the identity and selection
    dictionaries were inserted: two dictionaries with the same items give
    the same signature. *)
Theorem C6_signature_order_independent (resume_text jd_text : string)
    (person person' selection selection' : dict) :
  NoDup person.*1 -> NoDup selection.*1 ->
  person ≡ₚ person' -> selection ≡ₚ selection' ->
  build_signature resume_text jd_text person selection
  = build_signature resume_text jd_text person' selection'.
Proof.
  intros Hp Hs Hpp Hss. unfold build_signature.
  rewrite (dumps_obj [_; _; _; _]), (dumps_obj [_; _; _; (_, Json.JObj selection')]).
  cbn [map render_item].
  by rewrite (dumps_obj_perm person person'),
             (dumps_obj_perm selection selection').
Qed.

Lemma C6_signature_order_independent_witness :
  build_signature "resume" "job"
    [("first", Json.JStr "Jonathan"); ("last", Json.JStr "Hogue")]
    [("styles", Json.JArr [Json.JStr "classic"]); ("length", Json.JStr "auto")]
  = build_signature "resume" "job"
      [("last", Json.JStr "Hogue"); ("first", Json.JStr "Jonathan")]
      [("length", Json.JStr "auto"); ("styles", Json.JArr [Json.JStr "classic"])].
Proof.
  apply C6_signature_order_independent.
  - by_compute.
  - by_compute.
  - apply Permutation_swap.
  - apply Permutation_swap.
Defined.

(** ** Keyword injection *)

Lemma core_loop_spec (ts core : list string) :
  exists added,
    core_loop core ts = core ++ added
    /\ length added <= length ts
    /\ NoDup added
    /\ forall x, x ∈ added -> ((x ∉ core) /\ x ∈ map Py.title ts).
Proof.
  unfold core_loop. revert core. induction ts as [| t ts IH]; intros core.
  { exists []. rewrite app_nil_r. split; [done |]. split; [done |].
    split; [constructor |]. by intros x ?%elem_of_nil. }
  cbn [fold_left]. destruct (decide (Py.title t ∈ core)) as [Hin | Hnin].
  - destruct (IH core) as (added & Heq & Hlen & Hnd & Hadd).
    exists added. rewrite Heq. split; [done |]. split; [simpl; lia |].
    split; [done |]. intros x Hx. destruct (Hadd x Hx). set_solver.
  - destruct (IH (core ++ [Py.title t])) as (added & Heq & Hlen & Hnd & Hadd).
    exists (Py.title t :: added). rewrite Heq, <- app_assoc.
    split; [done |]. split; [simpl; lia |]. split.
    + constructor; [| done]. intros Hx. destruct (Hadd _ Hx). set_solver.
    + intros x [-> | Hx]%elem_of_cons; [set_solver |].
      destruct (Hadd x Hx). set_solver.
Qed.

Lemma slice_to_nat {A} (l : list A) (n : nat) :
  Py.slice_to l (Z.of_nat n) = take n l.
Proof. rewrite slice_to_nonneg by lia. by rewrite Nat2Z.id. Qed.

Lemma slice_from_nat {A} (l : list A) (n : nat) :
  Py.slice_from_z l (Z.of_nat n) = drop n l.
Proof.
  unfold Py.slice_from_z. destruct (Z.leb_spec 0 (Z.of_nat n)); [| lia].
  by rewrite Nat2Z.id.
Qed.

(** The three clauses of [injected_within], one section at a time. *)
Lemma core_clause_none (is_kw : string -> Prop) (cap : nat)
    (core core' : list string) :
  core' = core ->
  exists kws added,
    length kws <= cap /\ Forall is_kw kws /\ core' = core ++ added /\
    length added <= length kws /\ NoDup added /\
    forall x, x ∈ added -> ((x ∉ core) /\ x ∈ map Py.title kws).
Proof.
  intros ->. exists [], []. rewrite app_nil_r.
  split; [simpl; lia |]. split; [constructor |]. split; [done |].
  split; [done |]. split; [constructor |]. by intros x ?%elem_of_nil.
Qed.

Lemma injected_within_refl (is_kw : string -> Prop) (a b c : nat)
    (p : Payload) :
  injected_within is_kw a b c p p.
Proof.
  split; [by left |]. split; [by apply core_clause_none |].
  split; [by left | done].
Qed.

Section InjectCaps.
Variable set_list : gset string -> list string.
Variable payload_to_text : Payload -> string.

(** [list(s)] enumerates the members of [s]. *)
Hypothesis set_list_sound : forall (X : gset string) (x : string),
  x ∈ set_list X -> x ∈ X.

(** For every payload, job text and caps, [inject_keywords] stays within
    the caps; the keywords it names are tokens of the job text that the
    payload's text does not have. *)
Lemma inject_keywords_within (payload : Payload) (jd_text : string)
    (sum_cap core_cap bullet_cap : nat) :
  injected_within
    (fun k => is_token k /\ k ∈ Fat.kw_set jd_text 400
              /\ k ∉ Fat.kw_set (payload_to_text payload) 400)
    sum_cap core_cap bullet_cap payload
    (inject_keywords set_list payload_to_text payload jd_text
       (Z.of_nat sum_cap, Z.of_nat core_cap, Z.of_nat bullet_cap)).
Proof.
  unfold inject_keywords.
  set (is_kw := fun k : string => _).
  set (missing := Py.slice_to _ 6).
  assert (Hkw : Forall is_kw missing).
  { apply Forall_forall. intros k Hk. subst missing.
    eapply elem_of_submseteq in Hk;
      [| apply sublist_submseteq, slice_to_sublist].
    apply list_elem_of_filter in Hk as [_ Hk].
    apply set_list_sound, elem_of_difference in Hk as [Hjd Hpay].
    split; [| done].
    by apply (Fat_kw_set_spec jd_text 400 ltac:(lia)). }
  clearbody missing.
  destruct (nonempty missing); cbn [negb];
    [| apply injected_within_refl].
  cbv beta iota zeta. rewrite !slice_to_nat, !slice_from_nat.
  (* summary *)
  set (step1 := if nonzero (Z.of_nat sum_cap) && _ then _ else _).
  assert (H1 : exists p1 m1, step1 = (p1, m1) /\ Forall is_kw m1 /\
             injected_within is_kw sum_cap 0 0 payload p1 /\
             p_core_items p1 = p_core_items payload /\
             p_experience p1 = p_experience payload).
  { subst step1. destruct (nonzero _ && _).
    - eexists _, _. split; [done |]. split; [by apply Forall_drop |].
      split; [| done]. split.
      + right. exists (take sum_cap missing).
        split; [rewrite length_take; lia |].
        split; [by apply Forall_take | done].
      + split; [by apply core_clause_none |]. split; [by left | done].
    - eexists _, _. split; [done |]. split; [done |]. split; [| done].
      apply injected_within_refl. }
  destruct H1 as (p1 & m1 & -> & Hm1 & Hp1 & Hcore1 & Hexp1).
  cbv beta iota zeta. rewrite ?slice_to_nat, ?slice_from_nat.
  (* core items *)
  set (step2 := if nonzero (Z.of_nat core_cap) && nonempty m1
                then _ else _).
  assert (H2 : exists p2 m2, step2 = (p2, m2) /\ Forall is_kw m2 /\
             injected_within is_kw sum_cap core_cap 0 payload p2 /\
             p_experience p2 = p_experience payload).
  { subst step2.
    destruct Hp1 as (Hsum & _ & _ & Hname & Hlic & Hedu).
    destruct (nonzero _ && nonempty m1).
    - eexists _, _. split; [done |]. split; [by apply Forall_drop |].
      split; [| done]. split; [done |].
      split; [| split; [by left | done]].
      destruct (core_loop_spec (take core_cap m1) (p_core_items p1))
        as (added & Heq & Hlen & Hnd & Hadd).
      exists (take core_cap m1), added.
      split; [rewrite length_take; lia |].
      split; [by apply Forall_take |].
      cbn [p_core_items set_core_items]. rewrite Heq, Hcore1.
      split; [done |]. split; [done |]. split; [done |].
      intros x Hx. rewrite <- Hcore1. by apply Hadd.
    - eexists _, _. split; [done |]. split; [done |]. split; [| done].
      split; [done |]. split; [by apply core_clause_none |].
      split; [by left | done]. }
  destruct H2 as (p2 & m2 & -> & Hm2 & Hp2 & Hexp2).
  cbv beta iota zeta. rewrite ?slice_to_nat, ?slice_from_nat.
  (* bullets of the first role *)
  destruct Hp2 as (Hsum & Hcore & _ & Hname & Hlic & Hedu).
  assert (Hnone : injected_within is_kw sum_cap core_cap bullet_cap
                    payload p2).
  { split; [done |]. split; [done |]. split; [by left | done]. }
  destruct (nonzero _ && nonempty m2); [| done].
  destruct (p_experience p2) as [| r0 rs] eqn:Hexp; [done |].
  split; [done |]. split; [done |]. split; [| done].
  right. exists (take bullet_cap m2), r0, rs.
  split; [rewrite length_take; lia |]. split; [by apply Forall_take |].
  split; [congruence | done].
Qed.
End InjectCaps.

(** C4.  With the default caps (2, 2, 2), in the fat build and in v9.2.2,
    [inject_keywords] puts at most two keywords in the Focus clause of the
    summary, appends at most two entries to the core list, none of which
    the list already had, and names at most two keywords in the one
    sentence it puts in front of the first role's bullets; whatever the
    order in which the set of missing keywords is enumerated. *)
Theorem C4_inject_within_default_caps
    (set_list : gset string -> list string) (payload : Payload)
    (jd_text : string) :
  (forall (X : gset string) (x : string), x ∈ set_list X -> x ∈ X) ->
  injected_within
    (fun k => is_token k /\ k ∈ Fat.kw_set jd_text 400
              /\ k ∉ Fat.kw_set (FatEnrich.payload_to_text payload) 400)
    2 2 2 payload
    (FatEnrich.inject_keywords set_list payload jd_text (2, 2, 2)%Z)
  /\ injected_within
       (fun k => is_token k /\ k ∈ Fat.kw_set jd_text 400
                 /\ k ∉ Fat.kw_set (V9.payload_to_text payload) 400)
       2 2 2 payload
       (V9.inject_keywords set_list payload jd_text (2, 2, 2)%Z).
Proof.
  intros Hsound. split.
  - apply (inject_keywords_within set_list FatEnrich.payload_to_text Hsound
             payload jd_text 2 2 2).
  - apply (inject_keywords_within set_list V9.payload_to_text Hsound
             payload jd_text 2 2 2).
Qed.

Lemma C4_inject_within_default_caps_witness :
  let jd := "Python, Kubernetes, Docker, Terraform, budgeting and leadership" in
  injected_within
    (fun k => is_token k /\ k ∈ Fat.kw_set jd 400
              /\ k ∉ Fat.kw_set (FatEnrich.payload_to_text metric_payload) 400)
    2 2 2 metric_payload
    (FatEnrich.inject_keywords elements metric_payload jd (2, 2, 2)%Z)
  /\ injected_within
       (fun k => is_token k /\ k ∈ Fat.kw_set jd 400
                 /\ k ∉ Fat.kw_set (V9.payload_to_text metric_payload) 400)
       2 2 2 metric_payload
       (V9.inject_keywords elements metric_payload jd (2, 2, 2)%Z).
Proof.
  apply (C4_inject_within_default_caps elements).
  intros X x. apply elem_of_elements.
Defined.

(** ** Orchestrator: the cache gate and the recording of a build *)

Lemma hexdigest_truthy (s : string) : Py.truthy (Sha256.hexdigest s) = true.
Proof. reflexivity. Qed.

(** The digest function agrees with the published test vectors. *)
Lemma hexdigest_test_vectors :
  Sha256.hexdigest "abc"
  = "ba7816bf8f01cfea414140de5dae2223b00361a396177a9cb410ff61f20015ad"
  /\ Sha256.hexdigest ""
     = "e3b0c44298fc1c149afbf4c8996fb92427ae41e4649b934ca495991b7852b855"
  /\ Sha256.hexdigest
       "abcdbcdecdefdefgefghfghighijhijkijkljklmklmnlmnomnopnopq"
     = "248d6a61d20638b8e5c026930c3e6039a33ce45964ff2167f6ecedd419db06c1".
Proof. repeat split; vm_compute; reflexivity. Qed.

Lemma bind_ok {A B} (m : M A) (k : A -> M B) (w w1 : World) (a : A) :
  m w = (inr a, w1) -> bind m k w = k a w1.
Proof. intros H. unfold bind. by rewrite H. Qed.

Lemma bind_inv {A B} (m : M A) (k : A -> M B) (w w2 : World) (b : B) :
  bind m k w = (inr b, w2) ->
  exists a w1, m w = (inr a, w1) /\ k a w1 = (inr b, w2).
Proof.
  unfold bind. destruct (m w) as [[e | a] w1]; [done |]. intros H. eauto.
Qed.

Lemma quiet_ret {A} (a : A) : quiet (ret a).
Proof. intros w. exists []. by rewrite app_nil_r. Qed.

Lemma quiet_raise {A} (e : Exn) : quiet (raise (A := A) e).
Proof. intros w. exists []. by rewrite app_nil_r. Qed.

Lemma quiet_lift {A} (r : Exn + A) : quiet (lift r).
Proof. destruct r; [apply quiet_raise | apply quiet_ret]. Qed.

Lemma quiet_bind {A B} (m : M A) (k : A -> M B) :
  quiet m -> (forall a, quiet (k a)) -> quiet (bind m k).
Proof.
  intros Hm Hk w. unfold bind. destruct (Hm w) as (evs & Hlog & Hnm & Hc).
  destruct (m w) as [[e | a] w1]; simpl in *; [by exists evs |].
  destruct (Hk a w1) as (evs' & Hlog' & Hnm' & Hc').
  exists (evs ++ evs'). rewrite Hlog', Hlog, Hc', Hc, app_assoc.
  split; [done |]. split; [by apply Forall_app | done].
Qed.

Lemma quiet_event {A} (m : M A) (e : Event) :
  not_mark e ->
  (forall w, w_log (m w).2 = w_log w ++ [e] /\ w_cache (m w).2 = w_cache w) ->
  quiet m.
Proof.
  intros He Hm w. destruct (Hm w) as [Hlog Hc]. exists [e].
  split; [done |]. split; [by constructor | done].
Qed.

Lemma quiet_read {A} (m : M A) : (forall w, (m w).2 = w) -> quiet m.
Proof. intros Hm w. exists []. by rewrite Hm, app_nil_r. Qed.

Lemma quiet_mkdir d : quiet (mkdir d).
Proof. by apply (quiet_event _ (EvMkdir d)). Qed.
Lemma quiet_write_file p : quiet (write_file p).
Proof. by apply (quiet_event _ (EvWrite (path_str p))). Qed.
Lemma quiet_write_zip p names : quiet (write_zip p names).
Proof. by apply (quiet_event _ (EvZip (path_str p) names)). Qed.
Lemma quiet_print line : quiet (print line).
Proof. by apply (quiet_event _ (EvPrint line)). Qed.
Lemma quiet_save_memory d : quiet (_save_memory d).
Proof. by apply (quiet_event _ (EvSaveMemory d)). Qed.
Lemma quiet_load_memory : quiet _load_memory.
Proof. by apply quiet_read. Qed.
Lemma quiet_file_exists p : quiet (file_exists p).
Proof. by apply quiet_read. Qed.
Lemma quiet_already_built sig : quiet (already_built sig).
Proof. by apply quiet_read. Qed.

(** A quiet computation, taken apart along its binds and branches. *)
Ltac quiet_step :=
  first
    [ apply quiet_ret | apply quiet_raise | apply quiet_lift
    | apply quiet_mkdir | apply quiet_write_file | apply quiet_write_zip
    | apply quiet_print | apply quiet_save_memory | apply quiet_load_memory
    | apply quiet_file_exists | apply quiet_already_built
    | assumption
    | apply quiet_bind; [| intros ?]
    | match goal with
      | |- quiet (if ?b then _ else _) => destruct b
      | |- quiet (match ?x with _ => _ end) => destruct x
      end ].

Ltac quiet_all := repeat quiet_step.

Section OrchestratorFacts.
Variable E : Env.
Variable V : Flags.
Variable cover_step :
  string -> string -> list (string * string) -> string -> string ->
  Exn + string.

Lemma quiet_remember_style sel : quiet (remember_style V sel).
Proof. unfold remember_style. quiet_all. Qed.

Lemma quiet_write_docx_simple p : quiet (write_docx_simple E p).
Proof. unfold write_docx_simple. quiet_all. Qed.

Lemma quiet_write_pdf_simple p : quiet (write_pdf_simple E p).
Proof.
  unfold write_pdf_simple. destruct (PDF_OK E);
    [quiet_all | apply quiet_write_docx_simple].
Qed.

Lemma quiet_generate_for_style outdir style_key person company title
    resume_text jd_text payload :
  quiet (generate_for_style E V cover_step outdir style_key person company
           title resume_text jd_text payload).
Proof.
  unfold generate_for_style.
  pose proof quiet_write_docx_simple. pose proof quiet_write_pdf_simple.
  repeat first [ apply quiet_write_docx_simple
               | apply quiet_write_pdf_simple | quiet_step ].
Qed.

Lemma quiet_styles_loop outdir person company title resume_text jd_text
    payload styles all_files :
  quiet (styles_loop E V cover_step outdir person company title resume_text
           jd_text payload styles all_files).
Proof.
  revert all_files. induction styles as [| s styles IH]; intros all_files.
  - apply quiet_ret.
  - cbn [styles_loop]. apply quiet_bind; [| intros files; apply IH].
    apply quiet_generate_for_style.
Qed.






End OrchestratorFacts.




(** In this build a run that is not cut short by the cache never returns:
    every style's generation stops at the cover letter, and a run without
    styles stops at [styles[0]].  A run that returns has therefore found
    its signature in the cache. *)
Lemma generate_for_style_raises (E : Env) (V : Flags)
    (outdir style_key : string) (person : list (string * string))
    (company title resume_text jd_text : string) (payload : ResumePayload)
    (w w' : World) (files : list Path) :
  generate_for_style E V make_cover_letter outdir style_key person company
    title resume_text jd_text payload w ≠ (inr files, w').
Proof.
  unfold generate_for_style. intros H.
  do 4 (apply bind_inv in H as (? & ? & _ & H)).
  apply bind_inv in H as (? & ? & Hcover & _). discriminate Hcover.
Qed.

(** X26.  In HogueResMaster_v11.py a run returns only when the cache cuts
    it short: [make_cover_letter] raises in every style, so a run that
    returns had idempotent runs on and its signature in the cache, and it
    returns the empty list. *)
Lemma run_auto_returns_only_cached (E : Env) (V : Flags) (outdir : string)
    (person : list (string * string))
    (company title resume_text jd_text : string) (styles : list string)
    (w w' : World) (files : list Path) :
  run_auto E V outdir person company title resume_text jd_text styles w
  = (inr files, w') ->
  files = [] /\ idempotent_runs V = true
  /\ build_signature resume_text jd_text (person_json person)
       (selection_of styles) ∈ w_cache w.
Proof.
  unfold run_auto, run_auto_with. intros H.
  apply bind_inv in H as ([] & w1 & Hmk & H).
  apply bind_inv in H as ([] & w2 & Hrem & H).
  apply bind_inv in H as (built & w3 & Hbuilt & H).
  assert (Hcache : w_cache w2 = w_cache w).
  { destruct (quiet_remember_style V (selection_of styles) w1)
      as (_ & _ & _ & Hc2).
    rewrite Hrem in Hc2. simpl in Hc2. rewrite Hc2.
    injection Hmk as <-. done. }
  destruct built.
  - apply bind_inv in H as ([] & w4 & _ & H). injection H as <- _.
    split; [done |]. destruct (idempotent_runs V); [| done].
    split; [done |]. unfold build_signature in Hbuilt.
    rewrite hexdigest_truthy in Hbuilt. fold (build_signature resume_text
      jd_text (person_json person) (selection_of styles)) in Hbuilt.
    injection Hbuilt as Hb _. apply bool_decide_eq_true in Hb.
    by rewrite <- Hcache.
  - exfalso. apply bind_inv in H as (all_files & w4 & Hloop & H).
    apply bind_inv in H as (first & w5 & _ & H).
    apply bind_inv in H as (last & w6 & _ & H).
    apply bind_inv in H as (style0 & w7 & Hstyle & _).
    destruct styles as [| s rest]; [discriminate Hstyle |].
    cbn [styles_loop] in Hloop.
    apply bind_inv in Hloop as (fs & w8 & Hgen & _).
    by apply generate_for_style_raises in Hgen.
Qed.

(** ** Rounding, once more *)

(** The integer that [round] returns, in integer arithmetic. *)
Lemma round_spec_Z (n : Z) (d : positive) :
  let r := Py.round (n # d) in
  (2 * Z.abs (n - r * Z.pos d) <= Z.pos d)%Z
  /\ ((2 * Z.abs (n - r * Z.pos d) = Z.pos d)%Z -> Z.even r = true).
Proof.
  cbv zeta. unfold Py.round. cbn [Qnum Qden].
  pose proof (Z.div_mod n (Z.pos d) ltac:(lia)) as Hdm.
  pose proof (Z.mod_pos_bound n (Z.pos d) ltac:(lia)) as Hb.
  set (f := (n / Z.pos d)%Z) in *. set (r := (n mod Z.pos d)%Z) in *.
  destruct (Z.ltb_spec (2 * r) (Z.pos d)); [split; lia |].
  destruct (Z.ltb_spec (Z.pos d) (2 * r)); [split; lia |].
  destruct (Z.even f) eqn:Hev; [split; [lia | done] |].
  split; [lia |]. intros _. by rewrite Z.even_add, Hev.
Qed.

Lemma round_mono (q1 q2 : Q) : (q1 <= q2)%Q -> (Py.round q1 <= Py.round q2)%Z.
Proof.
  destruct q1 as [n1 d1], q2 as [n2 d2]. unfold Qle. cbn [Qnum Qden].
  intros Hle.
  destruct (round_spec_Z n1 d1) as [Hn1 He1].
  destruct (round_spec_Z n2 d2) as [Hn2 He2].
  set (r1 := Py.round (n1 # d1)) in *. set (r2 := Py.round (n2 # d2)) in *.
  destruct (Z_le_gt_dec r1 r2) as [| Hgt]; [done | exfalso].
  assert (H1 : ((2 * r1 - 1) * Z.pos d1 <= 2 * n1)%Z) by lia.
  assert (H2 : (2 * n2 <= (2 * r2 + 1) * Z.pos d2)%Z) by lia.
  assert (H3 : ((2 * r1 - 1) * (Z.pos d1 * Z.pos d2)
                <= (2 * r2 + 1) * (Z.pos d1 * Z.pos d2))%Z) by nia.
  assert (Hr : r1 = (r2 + 1)%Z) by nia.
  assert (E1 : ((2 * r1 - 1) * Z.pos d1 = 2 * n1)%Z) by nia.
  assert (E2 : (2 * n2 = (2 * r2 + 1) * Z.pos d2)%Z) by nia.
  assert (Z.even r1 = true) by (apply He1; lia).
  assert (Z.even r2 = true) by (apply He2; lia).
  rewrite Hr, Z.even_add in *. destruct (Z.even r2); done.
Qed.

Lemma round_inject_Z (z : Z) : Py.round (inject_Z z) = z.
Proof.
  unfold Py.round, inject_Z. cbn [Qnum Qden].
  rewrite Z.div_1_r, Z.mod_1_r. done.
Qed.

Lemma round_between (q : Q) (lo hi : Z) :
  (inject_Z lo <= q)%Q -> (q <= inject_Z hi)%Q ->
  (lo <= Py.round q <= hi)%Z.
Proof.
  intros Hlo Hhi. apply round_mono in Hlo, Hhi.
  rewrite round_inject_Z in Hlo, Hhi. lia.
Qed.

Lemma coverage_of_bounds (jks tks : gset string) :
  (0 <= coverage_of jks tks <= 100)%Z.
Proof.
  unfold coverage_of.
  assert (Hk : size (jks ∩ tks) <= size jks)
    by (apply subseteq_size; set_solver).
  set (k := Z.of_nat (size (jks ∩ tks))). set (n := Z.of_nat (size jks)).
  assert (0 <= k <= n)%Z by lia.
  destruct (Z.max 1 n) as [| p |] eqn:Hmax; try lia.
  apply round_between; unfold Qle, Qdiv, Qinv, Qmult, inject_Z;
    cbn [Qnum Qden]; lia.
Qed.

Lemma coverage_of_mono (jks tks tks' : gset string) :
  tks ⊆ tks' -> (coverage_of jks tks <= coverage_of jks tks')%Z.
Proof.
  intros Hsub. unfold coverage_of. apply round_mono.
  assert (Hk : size (jks ∩ tks) <= size (jks ∩ tks'))
    by (apply subseteq_size; set_solver).
  destruct (Z.max 1 (Z.of_nat (size jks))) as [| p |] eqn:Hmax; try lia.
  unfold Qle, Qdiv, Qinv, Qmult, inject_Z; cbn [Qnum Qden]. nia.
Qed.

Lemma hire_of_between (cov ats : Z) :
  (Z.min cov ats <= hire_of cov ats <= Z.max cov ats)%Z.
Proof.
  unfold hire_of. apply round_between;
    unfold Qle, Qplus, Qmult, inject_Z; cbn [Qnum Qden]; lia.
Qed.

(** ** Further properties: scores *)

(** X1.  In both builds the coverage score lies between 0 and 100, for
    every job text and candidate text. *)
Theorem coverage_in_range (ats_score : string -> Z) (jd txt : string) :
  (0 <= sc_match (V11.composite_scores ats_score jd txt) <= 100)%Z
  /\ (0 <= (Fat.composite_scores ats_score jd txt).1.1.1 <= 100)%Z.
Proof. split; apply coverage_of_bounds. Qed.

(** X2.  The hire likelihood lies between the smaller and the larger of
    coverage and scan health. *)
Theorem hire_between_scores (ats_score : string -> Z) (jd txt : string) :
  let s := V11.composite_scores ats_score jd txt in
  (Z.min (sc_match s) (sc_scan s) <= sc_hire s
   <= Z.max (sc_match s) (sc_scan s))%Z.
Proof. apply hire_of_between. Qed.

(** X3.  When the scan-health score is between 0 and 100, so is the hire
    likelihood. *)
Theorem hire_in_range (ats_score : string -> Z) (jd txt : string) :
  (0 <= ats_score txt <= 100)%Z ->
  (0 <= sc_hire (V11.composite_scores ats_score jd txt) <= 100)%Z.
Proof.
  intros Hats.
  pose proof (hire_of_between
                (coverage_of (V11.kw_set jd 400) (V11.kw_set txt 400))
                (ats_score txt)) as Hb.
  pose proof (coverage_of_bounds (V11.kw_set jd 400) (V11.kw_set txt 400))
    as Hc.
  cbn [V11.composite_scores sc_hire]. lia.
Qed.

Lemma hire_in_range_witness :
  (0 <= sc_hire (V11.composite_scores (fun _ => 40%Z)
                   "Lead adoption programs" "Led adoption") <= 100)%Z.
Proof. apply hire_in_range. lia. Defined.

(** X4.  A job text without any keyword (no run of two letters) has
    coverage 0 against every candidate text: the [max(1, ...)] floor keeps
    the division defined. *)
Theorem coverage_without_job_keywords (ats_score : string -> Z)
    (jd txt : string) :
  V11.kw_set jd 400 = ∅ ->
  sc_match (V11.composite_scores ats_score jd txt) = 0%Z.
Proof.
  intros Hempty. cbn [V11.composite_scores sc_match]. unfold coverage_of.
  rewrite Hempty. replace (∅ ∩ V11.kw_set txt 400) with (∅ : gset string)
    by set_solver.
  rewrite size_empty. reflexivity.
Qed.

Lemma coverage_without_job_keywords_witness :
  sc_match (V11.composite_scores (fun _ => 40%Z) "a 1 ! b" "Led adoption")
  = 0%Z.
Proof. apply coverage_without_job_keywords. by vm_compute. Defined.

(** X5.  Coverage does not decrease when the candidate's keyword set
    grows. *)
Theorem coverage_monotone (ats_score : string -> Z) (jd txt txt' : string) :
  V11.kw_set txt 400 ⊆ V11.kw_set txt' 400 ->
  (sc_match (V11.composite_scores ats_score jd txt)
   <= sc_match (V11.composite_scores ats_score jd txt'))%Z.
Proof. intros Hsub. by apply coverage_of_mono. Qed.

Lemma coverage_monotone_witness :
  (sc_match (V11.composite_scores (fun _ => 0%Z)
              "lead adoption programs" "adoption")
   <= sc_match (V11.composite_scores (fun _ => 0%Z)
                 "lead adoption programs" "adoption programs"))%Z.
Proof. apply coverage_monotone. by_compute. Defined.

(** X6.  The letter grade never gets worse when the hire likelihood
    grows. *)
Theorem letter_grade_monotone (h1 h2 : Z) :
  (h1 <= h2)%Z ->
  grade_rank (letter_grade h1) <= grade_rank (letter_grade h2).
Proof.
  intros Hle. unfold letter_grade.
  repeat match goal with
         | |- context [(?k <=? ?x)%Z] => destruct (Z.leb_spec k x)
         end; try lia; vm_compute; lia.
Qed.

Lemma letter_grade_monotone_witness :
  grade_rank (letter_grade 72) <= grade_rank (letter_grade 93).
Proof. apply letter_grade_monotone. lia. Defined.

(** ** Further properties: bullets *)

Lemma str_nil (l : list ascii) : Py.str l = "" -> l = [].
Proof. by destruct l. Qed.

Lemma truthy_length (s : string) : Py.truthy s = true <-> 0 < String.length s.
Proof. destruct s; simpl; split; (done || lia). Qed.

Lemma length_chars (s : string) : length (Py.chars s) = String.length s.
Proof. by rewrite <- (length_str (Py.chars s)), str_chars. Qed.

Lemma tight_line_shape (b : string) :
  Py.truthy (norm_line b) = true ->
  0 < String.length (tight_line b) <= 180.
Proof.
  rewrite truthy_length. unfold tight_line, Py.str_slice_to.
  rewrite slice_to_nonneg, length_str, length_take, length_chars by lia. lia.
Qed.

(** The loop of [tighten_bullets]: what it adds to [cleaned] are the lines of
    a sub-list of the bullets, in order, and with a cap of at least one it
    never holds more than the cap. *)
Lemma tighten_loop_shape (bullets : list string) (n : Z) (seen : gset string)
    (cleaned : list string) :
  (Z.of_nat (length cleaned) < Z.max 1 n)%Z ->
  exists kept,
    sublist kept bullets
    /\ tighten_loop bullets n seen cleaned = cleaned ++ map tight_line kept
    /\ Forall (fun b => Py.truthy (norm_line b) = true) kept
    /\ (Z.of_nat (length (cleaned ++ map tight_line kept)) <= Z.max 1 n)%Z.
Proof.
  revert seen cleaned. induction bullets as [| b bullets IH];
    intros seen cleaned Hlen.
  { exists []. simpl. rewrite app_nil_r. repeat split; [done | constructor | lia]. }
  cbn [tighten_loop]. cbv zeta. fold (norm_line b).
  destruct (Py.truthy (norm_line b)) eqn:Ht; cbn [negb].
  2:{ destruct (IH seen cleaned Hlen) as (kept & Hsub & Heq & Hall & Hl).
      exists kept. split; [by apply sublist_cons |]. done. }
  destruct (decide (_ ∈ seen)).
  { destruct (IH seen cleaned Hlen) as (kept & Hsub & Heq & Hall & Hl).
    exists kept. split; [by apply sublist_cons |]. done. }
  fold (tight_line b).
  destruct (Z.leb_spec n (Z.of_nat (length (cleaned ++ [tight_line b])))).
  - exists [b]. split; [apply sublist_skip, sublist_nil_l |].
    split; [done |]. split; [by constructor |].
    simpl. rewrite length_app in *. simpl in *. lia.
  - destruct (IH ({[Py.lower (norm_line b)]} ∪ seen)
                (cleaned ++ [tight_line b])) as (kept & Hsub & Heq & Hall & Hl).
    { rewrite length_app in *. simpl in *. lia. }
    exists (b :: kept). split; [by apply sublist_skip |].
    rewrite Heq, <- app_assoc in *. split; [done |].
    split; [by constructor | done].
Qed.

(** ** Normal form of a bullet *)

Lemma lstrip_hd_ok (l : list ascii) : hd_ok (Py.lstrip_chars l) = true.
Proof.
  induction l as [| c l IH]; [done |]. simpl.
  destruct (Py.is_space c) eqn:Hc; [done |]. simpl. by rewrite Hc.
Qed.

Lemma lstrip_fix (l : list ascii) : hd_ok l = true -> Py.lstrip_chars l = l.
Proof. destruct l as [| c l]; [done |]. simpl. by destruct (Py.is_space c). Qed.

Lemma lstrip_suffix (l : list ascii) :
  exists ws, l = ws ++ Py.lstrip_chars l.
Proof.
  induction l as [| c l [ws IH]]; [by exists [] |]. simpl.
  destruct (Py.is_space c); [| by exists []].
  exists (c :: ws). simpl. by f_equal.
Qed.

Lemma strip_chars_fix (l : list ascii) :
  hd_ok l = true -> hd_ok (rev l) = true -> Py.strip_chars l = l.
Proof.
  intros H1 H2. unfold Py.strip_chars, Py.rstrip_chars.
  by rewrite (lstrip_fix l H1), (lstrip_fix (rev l) H2), rev_involutive.
Qed.

Lemma strip_chars_hd (l : list ascii) :
  hd_ok (Py.strip_chars l) = true /\ hd_ok (rev (Py.strip_chars l)) = true.
Proof.
  unfold Py.strip_chars, Py.rstrip_chars. set (y := Py.lstrip_chars l).
  split; [| rewrite rev_involutive; apply lstrip_hd_ok].
  destruct (lstrip_suffix (rev y)) as [ws Hws].
  assert (Hy : y = rev (Py.lstrip_chars (rev y)) ++ rev ws).
  { rewrite <- rev_app_distr, <- Hws. by rewrite rev_involutive. }
  destruct (rev (Py.lstrip_chars (rev y))) as [| c t] eqn:Hr; [done |].
  pose proof (lstrip_hd_ok l) as Hh. fold y in Hh. rewrite Hy in Hh. done.
Qed.

Lemma collapse_go_snoc (b : bool) (l : list ascii) (c : ascii) :
  Py.is_space c = false ->
  Py.collapse_go b (l ++ [c]) = Py.collapse_go b l ++ [c].
Proof.
  intros Hc. revert b. induction l as [| x l IH]; intros b; simpl.
  - by rewrite Hc.
  - destruct (Py.is_space x); [destruct b |]; by rewrite ?IH.
Qed.

Lemma collapse_go_hd (l : list ascii) :
  hd_ok l = true -> hd_ok (rev l) = true ->
  hd_ok (Py.collapse_go false l) = true
  /\ hd_ok (rev (Py.collapse_go false l)) = true.
Proof.
  intros H1 H2. split.
  - destruct l as [| c l]; [done |]. simpl in *.
    destruct (Py.is_space c) eqn:Hc; [done |]. simpl. by rewrite Hc.
  - destruct (rev l) as [| c t] eqn:Hr.
    + apply (f_equal (@rev ascii)) in Hr. rewrite rev_involutive in Hr.
      by subst l.
    + apply (f_equal (@rev ascii)) in Hr. rewrite rev_involutive in Hr.
      simpl in Hr. subst l. simpl in H2. apply negb_true_iff in H2.
      rewrite collapse_go_snoc, rev_app_distr by done. simpl.
      by rewrite H2.
Qed.

Lemma collapse_go_single_spaced (prev : bool) (l : list ascii) :
  single_spaced prev (Py.collapse_go prev l) = true.
Proof.
  revert prev. induction l as [| c l IH]; intros prev; [done |]. simpl.
  destruct (Py.is_space c) eqn:Hc.
  - destruct prev; [apply IH |]. simpl. by rewrite IH.
  - simpl. rewrite Hc. apply IH.
Qed.

Lemma collapse_go_fix (prev : bool) (l : list ascii) :
  single_spaced prev l = true -> Py.collapse_go prev l = l.
Proof.
  revert prev. induction l as [| c l IH]; intros prev; [done |]. simpl.
  destruct (Py.is_space c) eqn:Hc.
  - intros [[Hp Heq%Ascii.eqb_eq]%andb_true_iff Hr]%andb_true_iff.
    apply negb_true_iff in Hp. subst prev c. by rewrite IH.
  - intros Hr. by rewrite IH.
Qed.

(** Normalising a normalised line changes nothing. *)
Lemma norm_line_idem (b : string) : norm_line (norm_line b) = norm_line b.
Proof.
  unfold norm_line, Py.collapse_ws, Py.strip. rewrite !chars_str.
  destruct (strip_chars_hd (Py.chars b)) as [H1 H2].
  destruct (collapse_go_hd _ H1 H2) as [H3 H4].
  rewrite (strip_chars_fix _ H3 H4).
  by rewrite (collapse_go_fix false _ (collapse_go_single_spaced false _)).
Qed.

Lemma tight_line_short (b : string) :
  String.length (norm_line b) <= 180 -> tight_line b = norm_line b.
Proof.
  intros Hlen. unfold tight_line, Py.str_slice_to.
  rewrite slice_to_nonneg by lia.
  rewrite take_ge by (rewrite length_chars; simpl; lia). apply str_chars.
Qed.

(** With lines of at most 180 characters, the loop keeps the keys of the
    lines it holds pairwise different. *)
Lemma tighten_loop_keys (bullets : list string) (n : Z) (seen : gset string)
    (cleaned : list string) :
  Forall (fun b => String.length (norm_line b) <= 180) bullets ->
  (forall t, t ∈ cleaned -> Py.lower t ∈ seen) ->
  NoDup (map Py.lower cleaned) ->
  NoDup (map Py.lower (tighten_loop bullets n seen cleaned)).
Proof.
  intros Hshort. revert seen cleaned.
  induction Hshort as [| b bullets Hb _ IH]; intros seen cleaned Hseen Hnd;
    [done |].
  cbn [tighten_loop]. cbv zeta. fold (norm_line b).
  destruct (Py.truthy (norm_line b)); cbn [negb]; [| by apply IH].
  destruct (decide (_ ∈ seen)) as [| Hnew]; [by apply IH |].
  fold (tight_line b). rewrite (tight_line_short b Hb).
  assert (Hnd' : NoDup (map Py.lower (cleaned ++ [norm_line b]))).
  { rewrite map_app. apply NoDup_app. split; [done |]. split.
    - intros k Hk ->%list_elem_of_singleton. apply Hnew.
      apply list_elem_of_fmap in Hk as (t & -> & Ht). by apply Hseen.
    - apply NoDup_singleton. }
  destruct (_ <=? _)%Z; [done |]. apply IH; [| done].
  intros t [Ht | ->%list_elem_of_singleton]%elem_of_app; set_solver.
Qed.

(** A list of normalised, non-empty, short lines with pairwise different
    keys that fits the cap goes through the loop unchanged. *)
Lemma tighten_loop_fixed (l : list string) (n : Z) (seen : gset string)
    (cleaned : list string) :
  Forall (fun t => norm_line t = t /\ Py.truthy t = true
                   /\ String.length t <= 180) l ->
  NoDup (map Py.lower l) ->
  (forall t, t ∈ l -> Py.lower t ∉ seen) ->
  (Z.of_nat (length (cleaned ++ l)) <= Z.max 1 n)%Z ->
  tighten_loop l n seen cleaned = cleaned ++ l.
Proof.
  intros Hfix. revert seen cleaned.
  induction Hfix as [| t l (Hn & Ht & Hlen) _ IH];
    intros seen cleaned Hnd Hseen Hcap.
  { simpl. by rewrite app_nil_r. }
  cbn [tighten_loop]. cbv zeta. fold (norm_line t). rewrite Hn, Ht.
  cbn [negb]. destruct (decide (_ ∈ seen)) as [Hin | _].
  { exfalso. by apply (Hseen t); [left |]. }
  replace (Py.str_slice_to t 180) with t.
  2:{ pose proof (tight_line_short t) as Hs. unfold tight_line in Hs.
      rewrite Hn in Hs. by rewrite Hs. }
  simpl in Hnd. apply NoDup_cons in Hnd as [Hnot Hnd].
  rewrite length_app in Hcap. simpl in Hcap.
  destruct (Z.leb_spec n (Z.of_nat (length (cleaned ++ [t])))) as [Hle | Hgt].
  - rewrite length_app in Hle. simpl in Hle.
    assert (l = []) as -> by (destruct l; [done | simpl in *; lia]). done.
  - rewrite (IH ({[Py.lower t]} ∪ seen) (cleaned ++ [t])); [| done | |].
    + by rewrite <- app_assoc.
    + intros u Hu [Heq%elem_of_singleton | Hin]%elem_of_union.
      * apply Hnot. rewrite <- Heq. apply list_elem_of_fmap. by exists u.
      * apply (Hseen u); [by right | done].
    + rewrite !length_app. simpl. lia.
Qed.

(** X7.  With de-duplication on, [tighten_bullets] returns the lines of a
    sub-list of the bullets, in their order; every line is non-empty and has
    at most 180 characters; a cap of at least one is respected, and with a
    smaller cap at most one line is returned. *)
Theorem tighten_bullets_shape (V : Flags) (bullets : list string) (n : Z) :
  dedup_tighten V = true ->
  exists kept,
    sublist kept bullets
    /\ tighten_bullets V bullets n = map tight_line kept
    /\ (Z.of_nat (length (tighten_bullets V bullets n)) <= Z.max 1 n)%Z
    /\ Forall (fun t => 0 < String.length t <= 180)
              (tighten_bullets V bullets n).
Proof.
  intros Hflag. unfold tighten_bullets. rewrite Hflag. cbn [negb].
  destruct (tighten_loop_shape bullets n ∅ []) as (kept & Hsub & Heq & Ht & Hl);
    [simpl; lia |].
  exists kept. rewrite Heq. simpl in *. split; [done |]. split; [done |].
  split; [done |]. apply Forall_fmap. eapply Forall_impl; [exact Ht |].
  intros b Hb. by apply tight_line_shape.
Qed.

Lemma tighten_bullets_shape_witness :
  exists kept,
    sublist kept ["  Led   the team "; ""; "led the TEAM"; "Built tools"]
    /\ tighten_bullets V11_defaults
         ["  Led   the team "; ""; "led the TEAM"; "Built tools"] 6
       = map tight_line kept
    /\ (Z.of_nat (length (tighten_bullets V11_defaults
          ["  Led   the team "; ""; "led the TEAM"; "Built tools"] 6))
        <= Z.max 1 6)%Z
    /\ Forall (fun t => 0 < String.length t <= 180)
         (tighten_bullets V11_defaults
            ["  Led   the team "; ""; "led the TEAM"; "Built tools"] 6).
Proof. apply tighten_bullets_shape. reflexivity. Defined.

(** X8.  When no normalised bullet is longer than 180 characters, no two
    lines of the output are equal up to letter case, and tightening the
    output again returns it unchanged. *)
Theorem tighten_bullets_short_lines (V : Flags) (bullets : list string)
    (n : Z) :
  dedup_tighten V = true ->
  Forall (fun b => String.length (norm_line b) <= 180) bullets ->
  NoDup (map Py.lower (tighten_bullets V bullets n))
  /\ tighten_bullets V (tighten_bullets V bullets n) n
     = tighten_bullets V bullets n.
Proof.
  intros Hflag Hshort. unfold tighten_bullets. rewrite Hflag. cbn [negb].
  assert (Hnd : NoDup (map Py.lower (tighten_loop bullets n ∅ []))).
  { apply tighten_loop_keys; [done | by intros t ?%elem_of_nil | constructor]. }
  split; [done |].
  destruct (tighten_loop_shape bullets n ∅ []) as (kept & Hsub & Heq & Ht & Hl);
    [simpl; lia |].
  simpl in Heq, Hl. rewrite Heq in *.
  apply (tighten_loop_fixed _ n ∅ []); [| done | set_solver | done].
  apply Forall_fmap. apply Forall_forall. intros b Hb.
  assert (Hs : String.length (norm_line b) <= 180).
  { rewrite Forall_forall in Hshort. apply Hshort.
    eapply elem_of_submseteq; [done | by apply sublist_submseteq]. }
  rewrite Forall_forall in Ht. simpl. rewrite (tight_line_short b Hs).
  split; [apply norm_line_idem |]. split; [by apply Ht | done].
Qed.

Lemma tighten_bullets_short_lines_witness :
  NoDup (map Py.lower (tighten_bullets V11_defaults
           ["  Led   the team "; ""; "led the TEAM"; "Built tools"] 6))
  /\ tighten_bullets V11_defaults
       (tighten_bullets V11_defaults
          ["  Led   the team "; ""; "led the TEAM"; "Built tools"] 6) 6
     = tighten_bullets V11_defaults
         ["  Led   the team "; ""; "led the TEAM"; "Built tools"] 6.
Proof.
  apply tighten_bullets_short_lines; [reflexivity |].
  apply Forall_forall. intros b Hb. apply Nat.leb_le.
  repeat (apply elem_of_cons in Hb as [-> | Hb]; [by vm_compute |]).
  by apply elem_of_nil in Hb.
Defined.

(** ** Further properties: the metric-first variant *)

#[local] Instance rank_le_total : Total rank_le.
Proof. intros x y. unfold rank_le. lia. Qed.

#[local] Instance rank_le_trans : Transitive rank_le.
Proof. intros x y z. unfold rank_le. lia. Qed.

Lemma scored_from_idx (k : nat) (bullets : list string) :
  map (fun x => x.1.2) (scored_from k bullets) = seq k (length bullets).
Proof.
  revert k. induction bullets as [| b l IH]; intros k; [done |].
  simpl. by rewrite IH.
Qed.

Lemma scored_from_elem (k : nat) (bullets : list string)
    (x : nat * nat * string) :
  x ∈ scored_from k bullets ->
  exists i, x.1.2 = k + i /\ bullets !! i = Some x.2
            /\ x.1.1 = bullet_score x.2.
Proof.
  revert k. induction bullets as [| b l IH]; intros k; [by intros ?%elem_of_nil |].
  simpl. intros [-> | Hx]%elem_of_cons.
  - exists 0. simpl. split; [lia | done].
  - destruct (IH (S k) Hx) as (i & Hi & Hl & Hs).
    exists (S i). split; [lia | done].
Qed.

Lemma scored_from_bullets (k : nat) (bullets : list string) :
  map (fun x => x.2) (scored_from k bullets) = bullets.
Proof.
  revert k. induction bullets as [| b l IH]; intros k; [done |].
  simpl. by rewrite IH.
Qed.

(** A list sorted by [rank_le] whose indices are pairwise different is
    sorted strictly. *)
Lemma strongly_sorted_strict (l : list (nat * nat * string)) :
  StronglySorted rank_le l -> NoDup (map (fun x => x.1.2) l) ->
  StronglySorted
    (fun x y => y.1.1 < x.1.1 \/ (x.1.1 = y.1.1 /\ x.1.2 < y.1.2)) l.
Proof.
  induction 1 as [| x l Hl IH Hx]; intros Hnd; [constructor |].
  simpl in Hnd. apply NoDup_cons in Hnd as [Hnot Hnd].
  constructor; [by apply IH |].
  rewrite Forall_forall in Hx |- *. intros y Hy.
  destruct (Hx y Hy) as [? | [? ?]]; [by left |].
  right. split; [done |].
  assert (x.1.2 ≠ y.1.2); [| lia].
  intros Heq. apply Hnot. rewrite Heq.
  apply list_elem_of_fmap. by exists y.
Qed.

(** X9.  [variant_b] returns a rearrangement of its bullets that is ordered
    by score, highest first, and keeps the input order among bullets of
    equal score: the output is the list of the bullets at positions [idxs],
    where [idxs] is a permutation of all positions and, for [i] before [j]
    in it, bullet [i] has the higher score or the same score and the
    smaller position. *)
Theorem variant_b_stable_by_score (bullets : list string) :
  exists idxs,
    idxs ≡ₚ seq 0 (length bullets)
    /\ variant_b bullets ≡ₚ bullets
    /\ Forall2 (fun b i => bullets !! i = Some b) (variant_b bullets) idxs
    /\ StronglySorted
         (fun i j =>
            match bullets !! i, bullets !! j with
            | Some bi, Some bj =>
                bullet_score bj < bullet_score bi
                \/ (bullet_score bi = bullet_score bj /\ i < j)
            | _, _ => False
            end) idxs.
Proof.
  set (ranked := merge_sort rank_le (scored_from 0 bullets)).
  assert (Hperm : ranked ≡ₚ scored_from 0 bullets)
    by apply merge_sort_Permutation.
  assert (Hout : variant_b bullets = map (fun x => x.2) ranked).
  { unfold variant_b. destruct bullets; [done | done]. }
  assert (Hidx : map (fun x => x.1.2) ranked ≡ₚ seq 0 (length bullets)).
  { rewrite <- (scored_from_idx 0 bullets). by apply Permutation_map. }
  assert (Helem : forall x, x ∈ ranked ->
             bullets !! x.1.2 = Some x.2 /\ x.1.1 = bullet_score x.2).
  { intros x Hx. rewrite Hperm in Hx.
    destruct (scored_from_elem 0 bullets x Hx) as (i & Hi & Hl & Hs).
    simpl in Hi. by rewrite Hi. }
  assert (Hsorted : StronglySorted
            (fun x y => y.1.1 < x.1.1 \/ (x.1.1 = y.1.1 /\ x.1.2 < y.1.2))
            ranked).
  { apply strongly_sorted_strict.
    - apply Sorted_StronglySorted; [apply _ |]. apply Sorted_merge_sort, _.
    - rewrite Hidx. apply NoDup_seq. }
  exists (map (fun x => x.1.2) ranked). rewrite Hout.
  split; [done |]. split.
  { transitivity (map (fun x => x.2) (scored_from 0 bullets));
      [by apply Permutation_map | by rewrite scored_from_bullets]. }
  clearbody ranked. clear Hperm Hout Hidx. split.
  - induction ranked as [| x l IH]; [constructor |]. simpl.
    constructor; [apply Helem; by left |]. apply IH.
    + intros y Hy. apply Helem. by right.
    + by inversion Hsorted.
  - induction Hsorted as [| x l Hl IH Hx]; [constructor |]. simpl.
    constructor; [apply IH; intros y Hy; apply Helem; by right |].
    apply Forall_fmap. rewrite Forall_forall in Hx |- *.
    intros y Hy. simpl.
    destruct (Helem x ltac:(by left)) as [-> Hsx].
    destruct (Helem y ltac:(by right)) as [-> Hsy].
    rewrite <- Hsx, <- Hsy. by apply Hx.
Qed.
(** ** Further properties: style memory *)





(** ** Further properties: the metric placeholder, repeated *)

(** X11.  The placeholder line has no digit, so [ensure_metric_shell] is
    not idempotent: on a payload whose first role has no digit in its
    bullets, [n] calls put [n] placeholder lines in front of them. *)
Theorem ensure_metric_shell_repeats (payload : Payload) (r0 : Role)
    (rs : list Role) (n : nat) :
  p_experience payload = r0 :: rs ->
  Forall (fun b => has_digit b = false) (r_bullets r0) ->
  Nat.iter n FatEnrich.ensure_metric_shell payload
  = set_experience payload
      (set_bullets r0 (repeat METRIC_SHELL n ++ r_bullets r0) :: rs).
Proof.
  intros Hexp Hall. induction n as [| n IH].
  - simpl. destruct payload as [? ? ? e ? ?], r0. simpl in *. by subst e.
  - rewrite Nat.iter_succ, IH.
    destruct (Fat_ensure_metric_shell_spec
                (set_experience payload
                   (set_bullets r0 (repeat METRIC_SHELL n ++ r_bullets r0)
                      :: rs))
                (set_bullets r0 (repeat METRIC_SHELL n ++ r_bullets r0)) rs
                eq_refl) as (Hadd & _ & Hno & _).
    rewrite Hadd; [done |]. cbn [r_bullets set_bullets].
    apply Forall_app. split; [| done].
    apply Forall_forall. intros b Hb.
    apply list_elem_of_In, repeat_spec in Hb. by subst b.
Qed.

Lemma ensure_metric_shell_repeats_witness :
  Nat.iter 3 FatEnrich.ensure_metric_shell
    (mkPayload "Candidate" "Summary." []
       [mkRole "Acme" "Analyst" "now" ["Owned customer outcomes."]] [] "")
  = mkPayload "Candidate" "Summary." []
      [mkRole "Acme" "Analyst" "now"
         [METRIC_SHELL; METRIC_SHELL; METRIC_SHELL;
          "Owned customer outcomes."]] [] "".
Proof.
  apply (ensure_metric_shell_repeats
           (mkPayload "Candidate" "Summary." []
              [mkRole "Acme" "Analyst" "now" ["Owned customer outcomes."]]
              [] "")
           (mkRole "Acme" "Analyst" "now" ["Owned customer outcomes."]) [] 3).
  - reflexivity.
  - repeat constructor.
Defined.

(** ** Further properties: the metric-heavy signal *)





(** ** Further properties: file names *)

Lemma squash_go_chars (b : bool) (l : list ascii) :
  Forall (fun c => Py.is_word c = true) (squash_go b l).
Proof.
  revert b. induction l as [| c l IH]; intros b; [constructor |]. simpl.
  destruct (Py.is_alpha c || Py.is_digit c) eqn:Hc.
  - constructor; [| apply IH]. unfold Py.is_word.
    apply orb_true_iff in Hc as [-> | ->]; by rewrite ?orb_true_r.
  - destruct b; [apply IH |]. constructor; [done | apply IH].
Qed.

Lemma lstrip_char_suffix (c : ascii) (l : list ascii) :
  exists ws, l = ws ++ Py.lstrip_char c l.
Proof.
  induction l as [| x l [ws IH]]; [by exists [] |]. simpl.
  destruct (Ascii.eqb c x); [| by exists []].
  exists (x :: ws). simpl. by f_equal.
Qed.

Lemma lstrip_char_hd (c : ascii) (l : list ascii) :
  match Py.lstrip_char c l with x :: _ => x ≠ c | [] => True end.
Proof.
  induction l as [| x l IH]; [done |]. simpl.
  destruct (Ascii.eqb_spec c x); [done | congruence].
Qed.

Lemma strip_char_spec (c : ascii) (l : list ascii) :
  (exists a b, l = a ++ Py.strip_char c l ++ b)
  /\ match Py.strip_char c l with x :: _ => x ≠ c | [] => True end.
Proof.
  unfold Py.strip_char. set (y := Py.lstrip_char c l).
  destruct (lstrip_char_suffix c l) as [a Ha]. fold y in Ha.
  destruct (lstrip_char_suffix c (rev y)) as [ws Hws].
  assert (Hy : y = rev (Py.lstrip_char c (rev y)) ++ rev ws).
  { rewrite <- rev_app_distr, <- Hws. by rewrite rev_involutive. }
  split.
  - exists a, (rev ws). by rewrite <- Hy.
  - pose proof (lstrip_char_hd c l) as Hh. fold y in Hh.
    destruct (rev (Py.lstrip_char c (rev y))) as [| x t]; [done |].
    by rewrite Hy in Hh.
Qed.

(** X13.  [safe_name] always returns a usable piece of a file name: between
    1 and 64 characters, every one of them a letter, a digit or an
    underscore, the first one not an underscore. *)
Theorem safe_name_shape (s : string) :
  1 <= String.length (safe_name s) <= 64
  /\ Forall (fun c => Py.is_word c = true) (Py.chars (safe_name s))
  /\ exists c rest, Py.chars (safe_name s) = c :: rest /\ c ≠ "_"%char.
Proof.
  unfold safe_name.
  destruct (strip_char_spec "_" (squash_go false (Py.chars s)))
    as [(a & b & Hab) Hhd].
  pose proof (squash_go_chars false (Py.chars s)) as Hall.
  set (t := Py.strip_char "_" (squash_go false (Py.chars s))) in *.
  assert (Ht : Forall (fun c => Py.is_word c = true) t).
  { rewrite Hab in Hall. apply Forall_app in Hall as [_ Hall].
    by apply Forall_app in Hall as [Hall _]. }
  clearbody t. clear Hab Hall.
  destruct (take 64 t) as [| c r] eqn:Htake.
  { split; [simpl; lia |]. split; [by repeat constructor |].
    by exists "N"%char, ["A"%char]. }
  assert (Hlen : length (c :: r) <= 64)
    by (rewrite <- Htake, length_take; lia).
  split; [rewrite length_str; simpl in *; lia |].
  rewrite chars_str. split.
  - rewrite <- Htake. by apply Forall_take.
  - exists c, r. split; [done |].
    destruct t as [| x t']; [done |]. simpl in Htake.
    injection Htake as Hx _. by subst x.
Qed.

(** ** Further properties: what a run of this build can do *)

Lemma quiet_bind_never {A B} (m : M A) (k : A -> M B) :
  quiet m -> (forall w a w', m w ≠ (inr a, w')) -> quiet (bind m k).
Proof.
  intros Hm Hnever w. unfold bind. specialize (Hm w).
  destruct (m w) as [[e | a] w'] eqn:Hmw; [done |].
  by destruct (Hnever w a w').
Qed.

Lemma quiet_bind_raise {A B} (e : Exn) (k : A -> M B) :
  quiet (bind (lift (inl e)) k).
Proof. apply quiet_bind_never; [apply quiet_lift | done]. Qed.

Lemma bind_never {A B} (m : M A) (k : A -> M B) :
  (forall w a w', m w ≠ (inr a, w')) ->
  forall w b w', bind m k w ≠ (inr b, w').
Proof.
  intros Hnever w b w' Hrun.
  apply bind_inv in Hrun as (a & w1 & Hm & _). by apply Hnever in Hm.
Qed.

(** X14.  In this build [run_auto] never records a build: whatever its
    arguments and the state it starts in, it performs no [mark_built] and
    leaves the set of cache markers as it found it.  (The cover-letter step
    raises, and a run without styles stops at [styles[0]].) *)
Theorem run_auto_never_records (E : Env) (V : Flags) (outdir : string)
    (person : list (string * string))
    (company title resume_text jd_text : string) (styles : list string)
    (w : World) :
  let w' := (run_auto E V outdir person company title resume_text jd_text
               styles w).2 in
  w_cache w' = w_cache w
  /\ exists evs, w_log w' = w_log w ++ evs /\ Forall not_mark evs.
Proof.
  assert (Hq : quiet (run_auto E V outdir person company title resume_text
                        jd_text styles)).
  { unfold run_auto, run_auto_with.
    apply quiet_bind; [apply quiet_mkdir | intros _].
    apply quiet_bind; [apply quiet_remember_style | intros _].
    apply quiet_bind; [destruct (Py.truthy _); quiet_all | intros built].
    destruct built; [quiet_all |].
    destruct styles as [| s rest].
    - cbn [styles_loop].
      apply quiet_bind; [apply quiet_ret | intros all_files].
      apply quiet_bind; [apply quiet_lift | intros first].
      apply quiet_bind; [apply quiet_lift | intros last].
      apply quiet_bind_raise.
    - cbn [styles_loop]. apply quiet_bind_never.
      + apply quiet_bind; [apply quiet_generate_for_style | intros files].
        apply quiet_styles_loop.
      + apply bind_never. intros w0 a w1. apply generate_for_style_raises. }
  cbv zeta. destruct (Hq w) as (evs & Hlog & Hnm & Hc). eauto.
Qed.

Lemma run_auto_returns_only_cached_witness :
  [] = ([] : list Path) /\ idempotent_runs V11_defaults = true
  /\ build_signature "resume" "job" (person_json example_person)
       (selection_of ["classic"]) ∈ w_cache cached_world.
Proof.
  apply (run_auto_returns_only_cached example_env V11_defaults "out"
           example_person "Acme" "Writer" "resume" "job" ["classic"]
           cached_world
           (run_auto example_env V11_defaults "out" example_person "Acme"
              "Writer" "resume" "job" ["classic"] cached_world).2 []).
  vm_compute. reflexivity.
Defined.

Lemma V11_kw_set_spec_witness :
  V11.kw_list "Lead the team; lead adoption" 2
    = take (Z.to_nat 2)
        (first_seen (V11.clean_tokens "Lead the team; lead adoption"))
  /\ NoDup (V11.kw_list "Lead the team; lead adoption" 2)
  /\ size (V11.kw_set "Lead the team; lead adoption" 2) <= Z.to_nat 2
  /\ forall t, t ∈ V11.kw_set "Lead the team; lead adoption" 2 -> is_token t.
Proof. apply V11_kw_set_spec. lia. Defined.

(** ** Veteran codes: [enrich_from_vet_codes] *)

Lemma vet_step_cases (text : string) (core : list string) (e : string * string) :
  (vet_step text core e = core /\ (word_search e.1 text = true -> e.2 ∈ core))
  \/ (vet_step text core e = core ++ [e.2]
      /\ (e.2 ∉ core) /\ word_search e.1 text = true).
Proof.
  unfold vet_step. destruct (word_search e.1 text); [| left; done].
  destruct (decide (e.2 ∈ core)); [left | right]; done.
Qed.

Lemma vet_fold_spec (text : string) (entries : list (string * string))
    (core : list string) :
  exists added,
    fold_left (vet_step text) entries core = core ++ added
    /\ NoDup added
    /\ (forall x, x ∈ added ->
          (x ∉ core)
          /\ exists code, (code, x) ∈ entries /\ word_search code text = true)
    /\ (forall e, e ∈ entries -> word_search e.1 text = true ->
          e.2 ∈ core ++ added).
Proof.
  revert core. induction entries as [| e entries IH]; intros core.
  - exists []. rewrite app_nil_r. split; [done |]. split; [constructor |].
    split; [intros x Hx | intros e He]; by apply elem_of_nil in Hx || by apply elem_of_nil in He.
  - cbn [fold_left].
    destruct (IH (vet_step text core e)) as (added & Heq & Hnd & Hnew & Hall).
    destruct (vet_step_cases text core e) as [[Hs Hin] | (Hs & Hnin & Hm)];
      rewrite Hs in Heq, Hnew, Hall |- *.
    + exists added. split; [done |]. split; [done |]. split.
      * intros x Hx. destruct (Hnew x Hx) as (Hx1 & code & Hc & Hw).
        split; [done |]. exists code. set_solver.
      * intros e' [-> | He']%elem_of_cons Hw; [| by apply Hall].
        apply elem_of_app. left. by apply Hin.
    + exists (e.2 :: added). split; [by rewrite Heq, <- app_assoc |]. split.
      { constructor; [| done]. intros Hx. apply Hnew in Hx as [Hx _].
        set_solver. }
      split.
      * intros x [-> | Hx]%elem_of_cons.
        { split; [done |]. exists e.1. split; [| done].
          destruct e; simpl. set_solver. }
        destruct (Hnew x Hx) as (Hx1 & code & Hc & Hw).
        split; [set_solver |]. exists code. set_solver.
      * intros e' [-> | He']%elem_of_cons Hw; [set_solver |].
        specialize (Hall e' He' Hw). set_solver.
Qed.

Lemma vet_fold_fixed (text : string) (entries : list (string * string))
    (core : list string) :
  (forall e, e ∈ entries -> word_search e.1 text = true -> e.2 ∈ core) ->
  fold_left (vet_step text) entries core = core.
Proof.
  induction entries as [| e entries IH]; intros Hall; [done |].
  cbn [fold_left].
  destruct (vet_step_cases text core e) as [[Hs _] | (_ & Hnin & Hm)].
  - rewrite Hs. apply IH. intros e' He'. apply Hall. set_solver.
  - destruct Hnin. apply Hall; [set_solver | done].
Qed.

(** X15.  [enrich_from_vet_codes] only appends to the core items: what it
    appends are exactly the crosswalk translations of the codes found in the
    resume as whole words that the list did not hold, each once; enriching
    the result again with the same resume changes nothing. *)
Theorem enrich_from_vet_codes_appends_once (payload : Payload)
    (resume_text : string) :
  let p' := enrich_from_vet_codes payload resume_text in
  (exists added,
     p_core_items p' = p_core_items payload ++ added
     /\ NoDup added
     /\ forall x, x ∈ added <->
          ((x ∉ p_core_items payload)
           /\ exists code, (code, x) ∈ VET_CROSSWALK
                           /\ word_search code resume_text = true))
  /\ set_core_items p' (p_core_items payload) = payload
  /\ enrich_from_vet_codes p' resume_text = p'.
Proof.
  cbv zeta. unfold enrich_from_vet_codes.
  destruct (vet_fold_spec resume_text VET_CROSSWALK (p_core_items payload))
    as (added & Heq & Hnd & Hnew & Hall).
  split; [| split].
  - exists added. split; [done |]. split; [done |]. intros x. split.
    + apply Hnew.
    + intros (Hx & code & Hc & Hw). specialize (Hall _ Hc Hw).
      cbn [snd] in Hall. set_solver.
  - by destruct payload.
  - destruct payload as [n s core ex lic ed]. unfold set_core_items.
    cbn [p_name p_summary p_core_items p_experience p_licenses_certs
         p_education] in *.
    f_equal. rewrite Heq. apply vet_fold_fixed.
    intros e He Hw. by apply Hall.
Qed.

(** ** Needs of the job text: [top_needs_from_jd] *)

Lemma filter_not_in_snoc (out : list string) (p : string) (l : list string) :
  filter (fun y => y ∉ out ++ [p]) l
  = filter (fun y => y ∉ out) (filter (fun y => y ≠ p) l).
Proof.
  rewrite list_filter_filter. apply list_filter_iff. intros y. set_solver.
Qed.

Lemma filter_not_in_seen (out : list string) (p : string) (l : list string) :
  p ∈ out ->
  filter (fun y => y ∉ out) (filter (fun y => y ≠ p) l)
  = filter (fun y => y ∉ out) l.
Proof.
  intros Hp. rewrite list_filter_filter. apply list_filter_iff. intros y.
  set_solver.
Qed.

Lemma needs_loop_spec (picks : list string) (maxn : Z) (out : list string) :
  length out < Z.to_nat (Z.max 1 maxn) ->
  needs_loop picks maxn out
  = take (Z.to_nat (Z.max 1 maxn))
         (out ++ filter (fun y => y ∉ out) (first_seen picks)).
Proof.
  revert out. induction picks as [| p rest IH]; intros out Hlen.
  - simpl. rewrite app_nil_r, take_ge; [done | lia].
  - cbn [needs_loop first_seen]. destruct (decide (p ∈ out)) as [Hin | Hnin].
    + assert (0 < length out)
        by (destruct out; [by apply elem_of_nil in Hin | simpl; lia]).
      destruct (Z.leb_spec maxn (Z.of_nat (length out))) as [Hle | Hgt];
        [lia |].
      rewrite IH by done. rewrite filter_cons_False by (intros Hneq; by apply Hneq).
      by rewrite filter_not_in_seen.
    + rewrite filter_cons_True by done. rewrite length_app. simpl.
      destruct (Z.leb_spec maxn (Z.of_nat (length out + 1))) as [Hle | Hgt].
      * replace (Z.to_nat (Z.max 1 maxn)) with (length out + 1) by lia.
        rewrite take_app_ge by lia.
        replace (length out + 1 - length out) with 1 by lia. done.
      * rewrite IH by (rewrite length_app; simpl; lia).
        by rewrite filter_not_in_snoc, <- app_assoc.
Qed.

(** X16.  [top_needs_from_jd] returns the first [max(1, maxn)] distinct
    picked lines in their order: the cap is tested after a line is taken, so
    a cap of zero or less still yields one line.  Every returned line is a
    stripped line of the job text that is longer than 6 characters and
    holds one of the need words; no line is returned twice. *)
Theorem top_needs_first_distinct (jd_txt : string) (maxn : Z) :
  top_needs_from_jd jd_txt maxn
  = take (Z.to_nat (Z.max 1 maxn)) (first_seen (jd_picks jd_txt))
  /\ NoDup (top_needs_from_jd jd_txt maxn)
  /\ length (top_needs_from_jd jd_txt maxn) <= Z.to_nat (Z.max 1 maxn)
  /\ forall x, x ∈ top_needs_from_jd jd_txt maxn ->
       6 < String.length x
       /\ any_in need_words (Py.lower x) = true
       /\ exists ln, ln ∈ Py.splitlines jd_txt /\ x = Py.strip ln.
Proof.
  assert (Heq : top_needs_from_jd jd_txt maxn
                = take (Z.to_nat (Z.max 1 maxn)) (first_seen (jd_picks jd_txt))).
  { unfold top_needs_from_jd. rewrite needs_loop_spec by (simpl; lia).
    simpl. f_equal. induction (first_seen _) as [| y l IHl]; [done |].
    rewrite filter_cons_True by set_solver. by rewrite IHl. }
  rewrite Heq. split; [done |]. split; [| split].
  - apply (sublist_NoDup _ (first_seen (jd_picks jd_txt)));
      [apply first_seen_NoDup | apply sublist_take].
  - rewrite length_take. lia.
  - intros x Hx. apply elem_of_take in Hx as (i & Hx & _).
    apply list_elem_of_lookup_2 in Hx.
    apply (proj1 (first_seen_elem _ _)) in Hx.
    unfold jd_picks in Hx. apply list_elem_of_filter in Hx as [Hneed Hx].
    unfold jd_lines in Hx. apply list_elem_of_fmap in Hx as (ln & -> & Hln).
    apply list_elem_of_filter in Hln as [Hlong Hln].
    split; [done |]. split; [done |]. by exists ln.
Qed.

(** ** Lines of the guarded cover letter *)

Lemma chars_app (a b : string) : Py.chars (a ++ b) = Py.chars a ++ Py.chars b.
Proof. induction a as [| c a IH]; [done |]. simpl. by rewrite <- IH. Qed.

Lemma splitlines_go_line (cur x rest : list ascii) :
  no_break x ->
  Py.splitlines_go false cur (x ++ Py.chars NL ++ rest)
  = Py.str (rev cur ++ x) :: Py.splitlines_go false [] rest.
Proof.
  revert cur. induction x as [| c x IH]; intros cur Hx.
  - by rewrite app_nil_r.
  - apply Forall_cons in Hx as [Hc Hx]. cbn [app Py.splitlines_go].
    rewrite Hc. cbn [andb]. rewrite (IH (c :: cur) Hx). simpl.
    by rewrite <- app_assoc.
Qed.

Lemma splitlines_go_last (cur x : list ascii) :
  no_break x -> rev cur ++ x <> [] ->
  Py.splitlines_go false cur x = [Py.str (rev cur ++ x)].
Proof.
  revert cur. induction x as [| c x IH]; intros cur Hx Hne.
  - rewrite app_nil_r in *. destruct cur; [done | done].
  - apply Forall_cons in Hx as [Hc Hx]. cbn [Py.splitlines_go].
    rewrite Hc. cbn [andb]. rewrite (IH (c :: cur) Hx).
    + simpl. by rewrite <- app_assoc.
    + simpl. rewrite <- app_assoc. by destruct (rev cur).
Qed.

(** Splitting undoes joining with newlines, for non-empty lines without
    line boundaries. *)
Lemma splitlines_join (lines : list string) :
  Forall (fun ln => no_break (Py.chars ln) /\ ln <> "") lines ->
  Py.splitlines (Py.join NL lines) = lines.
Proof.
  unfold Py.splitlines, Py.join.
  induction lines as [| ln lines IH]; intros Hall; [done |].
  apply Forall_cons in Hall as [[Hb Hne] Hall].
  destruct lines as [| ln' lines].
  - cbn [String.concat]. rewrite splitlines_go_last; [simpl; by rewrite str_chars | done |].
    simpl. intros Hnil. apply Hne. by rewrite <- (str_chars ln), Hnil.
  - change (String.concat NL (ln :: ln' :: lines))
      with (ln ++ NL ++ String.concat NL (ln' :: lines))%string.
    rewrite !chars_app, splitlines_go_line by done.
    rewrite (IH Hall). simpl. by rewrite str_chars.
Qed.

Lemma splitlines_go_no_break (s : list ascii) (after_cr : bool)
    (cur : list ascii) :
  no_break cur ->
  Forall (fun ln => no_break (Py.chars ln)) (Py.splitlines_go after_cr cur s).
Proof.
  revert after_cr cur. induction s as [| c s IH]; intros after_cr cur Hcur.
  - simpl. destruct cur; [constructor |].
    constructor; [| constructor]. rewrite chars_str. by apply Forall_rev.
  - cbn [Py.splitlines_go]. destruct (after_cr && _).
    + apply IH. constructor.
    + destruct (Py.is_linebreak c) eqn:Hc.
      * constructor; [rewrite chars_str; by apply Forall_rev |].
        apply IH. constructor.
      * apply IH. by constructor.
Qed.

Lemma nonblank_lines_join (text : string) :
  Py.splitlines (Py.join NL (filter nonblank (Py.splitlines text)))
  = filter nonblank (Py.splitlines text).
Proof.
  apply splitlines_join. apply Forall_forall. intros ln Hln.
  apply list_elem_of_filter in Hln as [Hnb Hln]. split.
  - pose proof (splitlines_go_no_break (Py.chars text) false []
                  (Forall_nil_2 _))
      as Hall.
    by apply (proj1 (Forall_forall _ _) Hall).
  - intros ->. by vm_compute in Hnb.
Qed.

Lemma filter_twice {A} (P : A -> Prop) `{!forall x, Decision (P x)}
    (l : list A) :
  filter P (filter P l) = filter P l.
Proof. rewrite list_filter_filter. apply list_filter_iff. naive_solver. Qed.

(** X17.  With the evidence-only flag on, the lines of the guarded cover
    letter are exactly the non-blank lines of the cover text: joining with
    newlines merges no two lines and splits none. *)
Theorem evidence_guard_lines (V : Flags)
    (cover_text resume_text jd_text : string) :
  evidence_only V = true ->
  Py.splitlines (evidence_guard V cover_text resume_text jd_text)
  = filter nonblank (Py.splitlines cover_text).
Proof.
  intros Hflag. unfold evidence_guard. rewrite Hflag. cbn [negb].
  rewrite guard_loop_keeps, app_nil_l. apply nonblank_lines_join.
Qed.

Lemma evidence_guard_lines_witness :
  evidence_only V11_defaults = true
  /\ Py.splitlines
       (evidence_guard V11_defaults
          ("Dear team," ++ NL ++ "   " ++ NL ++ NL ++ "I flew to the moon.")
          "resume" "job")
     = filter nonblank
         (Py.splitlines
            ("Dear team," ++ NL ++ "   " ++ NL ++ NL ++ "I flew to the moon.")).
Proof.
  split; [reflexivity |]. by apply evidence_guard_lines.
Defined.

(** X18.  [evidence_guard] is idempotent, whatever the flag, the resume and
    the job text are: guarding a guarded cover letter returns it
    unchanged. *)
Theorem evidence_guard_idempotent (V : Flags)
    (cover_text resume_text jd_text resume_text' jd_text' : string) :
  evidence_guard V (evidence_guard V cover_text resume_text jd_text)
    resume_text' jd_text'
  = evidence_guard V cover_text resume_text jd_text.
Proof.
  unfold evidence_guard. destruct (evidence_only V); cbn [negb]; [| done].
  rewrite !guard_loop_keeps, !app_nil_l.
  by rewrite nonblank_lines_join, filter_twice.
Qed.

(** ** Letter case of the keyword source *)

Lemma lower_char_idem (c : ascii) :
  Py.lower_char (Py.lower_char c) = Py.lower_char c.
Proof. by destruct c as [[] [] [] [] [] [] [] []]. Qed.

Lemma lower_idem (s : string) : Py.lower (Py.lower s) = Py.lower s.
Proof.
  unfold Py.lower. rewrite chars_str. f_equal.
  rewrite <- list_fmap_compose. apply list_fmap_ext. intros _ c _.
  apply lower_char_idem.
Qed.

(** X19.  The keyword set ignores letter case, in both builds: two texts
    that are equal up to letter case have the same keywords, and lowercasing
    a text keeps its keywords. *)
Theorem kw_set_ignores_case (text text' : string) (topn : Z) :
  Py.lower text = Py.lower text' ->
  V11.kw_set text topn = V11.kw_set text' topn
  /\ Fat.kw_set text topn = Fat.kw_set text' topn
  /\ V11.kw_set (Py.lower text) topn = V11.kw_set text' topn
  /\ Fat.kw_set (Py.lower text) topn = Fat.kw_set text' topn.
Proof.
  intros Heq.
  unfold V11.kw_set, Fat.kw_set, V11.kw_list, Fat.kw_list,
    V11.clean_tokens, Fat.clean_tokens.
  by rewrite lower_idem, Heq.
Qed.

Lemma kw_set_ignores_case_witness :
  Py.lower "SQL and Python" = Py.lower "sql AND python"
  /\ V11.kw_set "SQL and Python" 400 = V11.kw_set "sql AND python" 400
  /\ Fat.kw_set "SQL and Python" 400 = Fat.kw_set "sql AND python" 400
  /\ V11.kw_set (Py.lower "SQL and Python") 400
     = V11.kw_set "sql AND python" 400
  /\ Fat.kw_set (Py.lower "SQL and Python") 400
     = Fat.kw_set "sql AND python" 400.
Proof.
  split; [reflexivity |]. by apply kw_set_ignores_case.
Defined.

(** ** Acronyms: [ToneKit.expand_once] *)

Lemma starts_with_app (k t : list ascii) :
  Py.starts_with k t = true -> t = k ++ drop (length k) t.
Proof.
  revert t. induction k as [| a k IH]; intros [| b t] H; try done.
  simpl in H. apply andb_true_iff in H as [Hab Ht].
  apply Ascii.eqb_eq in Hab as ->. simpl. f_equal. by apply IH.
Qed.

Lemma acronym_here_spec (prev_word : bool) (s : list ascii) (ac long : string) :
  acronym_here prev_word s = Some (ac, long) ->
  (ac, long) ∈ ACRONYMS
  /\ exists c rest, Py.chars ac = c :: rest /\ s = Py.chars ac ++ drop (length (Py.chars ac)) s.
Proof.
  intros H. apply find_some in H as [Hin Hw]. cbn [fst] in Hw.
  split; [by apply list_elem_of_In |].
  unfold word_here in Hw. apply andb_true_iff in Hw as [Hw _].
  apply andb_true_iff in Hw as [_ Hw]. apply starts_with_app in Hw.
  assert (Hne : exists c rest, Py.chars ac = c :: rest).
  { unfold ACRONYMS in Hin. simpl in Hin.
    repeat (destruct Hin as [Hin | Hin];
            [injection Hin as <- _; by eexists _, _ |]).
    done. }
  destruct Hne as (c & rest & Hc). by exists c, rest.
Qed.

Lemma expand_go_grows (s : list ascii) (skip : nat) (prev_word : bool)
    (seen : gset string) :
  seen ⊆ (expand_go skip prev_word seen s).2
  /\ (expand_go skip prev_word seen s).2 ⊆ seen ∪ list_to_set ACRONYMS.*1.
Proof.
  revert skip prev_word seen.
  induction s as [| c r IH]; intros skip prev_word seen; [set_solver |].
  cbn [expand_go]. destruct skip as [| k]; [| apply IH].
  destruct (acronym_here prev_word (c :: r)) as [[ac long] |] eqn:Hac.
  - apply acronym_here_spec in Hac as [Hin _].
    assert (Hac : ac ∈ (list_to_set ACRONYMS.*1 : gset string)).
    { apply elem_of_list_to_set, list_elem_of_fmap. by exists (ac, long). }
    destruct (decide (ac ∈ seen)) as [Hseen | Hnew].
    + destruct (expand_go _ _ seen r) as [rest seen2] eqn:Hgo.
      pose proof (IH (String.length ac - 1) (Py.is_word c) seen) as Hi.
      rewrite Hgo in Hi. done.
    + destruct (expand_go _ _ ({[ ac ]} ∪ seen) r) as [rest seen2] eqn:Hgo.
      pose proof (IH (String.length ac - 1) (Py.is_word c) ({[ ac ]} ∪ seen))
        as Hi.
      rewrite Hgo in Hi. cbn [snd] in *. clear IH Hgo Hin.
      generalize dependent (list_to_set ACRONYMS.*1 : gset string).
      intros table Hac [Hlo Hhi]. split.
      * intros x Hx. apply Hlo, elem_of_union. by right.
      * intros x Hx. apply Hhi in Hx.
        apply elem_of_union in Hx as [Hx | Hx]; [| apply elem_of_union; by right].
        apply elem_of_union in Hx as [Hx | Hx]; apply elem_of_union;
          [right | by left].
        apply elem_of_singleton in Hx. by subst x.
  - destruct (expand_go 0 _ seen r) as [rest seen2] eqn:Hgo.
    pose proof (IH 0 (Py.is_word c) seen) as Hi. rewrite Hgo in Hi. done.
Qed.

Lemma expand_go_fixed (s : list ascii) (skip : nat) (prev_word : bool)
    (seen later : gset string) :
  (expand_go skip prev_word seen s).2 ⊆ later ->
  expand_go skip prev_word later s = (drop skip s, later).
Proof.
  revert skip prev_word seen.
  induction s as [| c r IH]; intros skip prev_word seen Hsub.
  - by destruct skip.
  - cbn [expand_go] in *. destruct skip as [| k]; [| by apply (IH _ _ seen)].
    destruct (acronym_here prev_word (c :: r)) as [[ac long] |] eqn:Hac.
    + apply acronym_here_spec in Hac as (_ & c' & rest & Hc & Hs).
      assert (Hlen : String.length ac - 1 = length rest).
      { rewrite <- length_chars, Hc. simpl. lia. }
      rewrite Hc in Hs. simpl in Hs. injection Hs as <- Hr.
      set (seen1 := if decide (ac ∈ seen) then seen else {[ ac ]} ∪ seen).
      assert (Hsub1 : (expand_go (String.length ac - 1) (Py.is_word c) seen1 r).2
                      ⊆ later).
      { unfold seen1. destruct (decide (ac ∈ seen));
          destruct (expand_go _ _ _ r); done. }
      assert (Hin : ac ∈ later).
      { apply Hsub1.
        apply (proj1 (expand_go_grows r _ (Py.is_word c) seen1)).
        unfold seen1. destruct (decide (ac ∈ seen)); set_solver. }
      rewrite decide_True by done.
      rewrite (IH _ _ seen1 Hsub1). rewrite Hc, Hlen. cbn [drop].
      f_equal. simpl. f_equal. by symmetry.
    + destruct (expand_go 0 _ seen r) as [rest seen2] eqn:Hgo.
      rewrite (IH 0 _ seen) by (by rewrite Hgo). done.
Qed.

(** X20.  Acronyms are expanded once: the set of seen acronyms only grows,
    and only by acronyms of the table; once a text has been expanded, the
    same text passes through [expand_once] unchanged in that and in every
    later state of the set. *)
Theorem expand_once_only_once (seen later : gset string) (text : string) :
  (expand_once seen text).2 ⊆ later ->
  expand_once later text = (text, later)
  /\ seen ⊆ (expand_once seen text).2
  /\ (expand_once seen text).2 ⊆ seen ∪ list_to_set ACRONYMS.*1.
Proof.
  unfold expand_once. intros Hsub.
  pose proof (expand_go_grows (Py.chars text) 0 false seen) as Hg.
  destruct (expand_go 0 false seen (Py.chars text)) as [out seen'] eqn:Hgo.
  split; [| done].
  rewrite (expand_go_fixed _ 0 false seen) by (by rewrite Hgo).
  cbv beta iota. by rewrite drop_0, str_chars.
Qed.

Lemma expand_once_only_once_witness :
  (expand_once ∅ "Our ATS feeds the KPI board").2 ⊆ {[ "ATS"; "KPI" ]}
  /\ expand_once {[ "ATS"; "KPI" ]} "Our ATS feeds the KPI board"
     = ("Our ATS feeds the KPI board", {[ "ATS"; "KPI" ]})
  /\ ∅ ⊆ (expand_once ∅ "Our ATS feeds the KPI board").2
  /\ (expand_once ∅ "Our ATS feeds the KPI board").2
     ⊆ ∅ ∪ list_to_set ACRONYMS.*1.
Proof.
  assert (H : (expand_once ∅ "Our ATS feeds the KPI board").2
              ⊆ {[ "ATS"; "KPI" ]}) by by_compute.
  split; [exact H |]. exact (expand_once_only_once ∅ _ _ H).
Defined.

(** ** Style ranking *)

Lemma F64_eqb_eq (a b : Q) : F64.eqb a b = true -> a = b.
Proof.
  destruct a as [n d], b as [n' d']. unfold F64.eqb. simpl.
  intros [Hn Hd]%andb_true_iff.
  apply Z.eqb_eq in Hn. apply Pos.eqb_eq in Hd. by subst.
Qed.

Lemma scores_eqb_eq (a b : list (string * Q)) : scores_eqb a b = true -> a = b.
Proof.
  revert b. induction a as [| [k v] a IH]; intros [| [k' v'] b] H; try done.
  simpl in H. apply andb_true_iff in H as [H Hab].
  apply andb_true_iff in H as [Hk Hv].
  apply String.eqb_eq in Hk. apply F64_eqb_eq in Hv. subst.
  f_equal. by apply IH.
Qed.

Lemma ranking_eqb_eq (a b : Ranking) : ranking_eqb a b = true -> a = b.
Proof.
  destruct a, b. unfold ranking_eqb. simpl. intros H.
  apply andb_true_iff in H as [H Ha]. apply andb_true_iff in H as [Hs Hc].
  apply String.eqb_eq in Hs, Ha. apply F64_eqb_eq in Hc. by subst.
Qed.

Lemma filter_in_sublists (P : string -> Prop) `{!forall x, Decision (P x)}
    (l : list string) :
  filter P l ∈ sublists_of l.
Proof.
  induction l as [| a l IH]; [set_solver |]. cbn [sublists_of].
  apply elem_of_app. destruct (decide (P a)) as [Ha | Ha].
  - rewrite filter_cons_True by done. left.
    apply list_elem_of_fmap. by exists (filter P l).
  - rewrite filter_cons_False by done. by right.
Qed.

Lemma canonical_in_table (order : list string) :
  canonical order ∈ sublists_of SIGNALS.
Proof. apply filter_in_sublists. Qed.

Lemma elem_of_canonical (order : list string) (x : string) :
  x ∈ canonical order <-> x ∈ SIGNALS /\ x ∈ order.
Proof. unfold canonical. rewrite list_elem_of_filter. tauto. Qed.

Lemma canonical_same (o1 o2 : list string) :
  (forall x, x ∈ o1 <-> x ∈ o2) -> canonical o1 = canonical o2.
Proof. intros H. apply list_filter_iff. intros x. apply H. Qed.

Lemma step_table :
  forallb (fun c => forallb (step_agrees c) SIGNALS) (sublists_of SIGNALS)
  = true.
Proof. vm_compute. reflexivity. Qed.

(** The scores do not depend on the order in which the signals are
    visited. *)
Lemma scores_order_free (order : list string) :
  NoDup order -> (forall x, x ∈ order -> x ∈ SIGNALS) ->
  scores_from order = scores_from (canonical order).
Proof.
  induction order as [| a l IH] using rev_ind; intros Hnd Hsub; [done |].
  apply NoDup_app in Hnd as (Hnd & Hdisj & _).
  assert (Ha : a ∉ l) by (intros Hin; apply (Hdisj a Hin); set_solver).
  assert (Hl : forall x, x ∈ l -> x ∈ SIGNALS) by (intros; apply Hsub; set_solver).
  unfold scores_from at 1. rewrite fold_left_app. cbn [fold_left].
  fold (scores_from l). rewrite (IH Hnd Hl).
  pose proof step_table as Ht. rewrite forallb_forall in Ht.
  specialize (Ht (canonical l)
                 (proj1 (list_elem_of_In _ _) (canonical_in_table l))).
  rewrite forallb_forall in Ht.
  specialize (Ht a (proj1 (list_elem_of_In _ _) (Hsub a ltac:(set_solver)))).
  unfold step_agrees in Ht. apply orb_true_iff in Ht as [Hin | Heq].
  - apply bool_decide_eq_true in Hin.
    apply elem_of_canonical in Hin as [_ Hin]. done.
  - apply scores_eqb_eq in Heq. rewrite Heq. f_equal. apply canonical_same.
    intros x. rewrite !elem_of_app, elem_of_canonical. naive_solver.
Qed.

Lemma rank_order_free (order : list string) :
  NoDup order -> (forall x, x ∈ order -> x ∈ SIGNALS) ->
  rank_styles_from order = rank_styles_from (canonical order).
Proof.
  intros Hnd Hsub. unfold rank_styles_from, ranked_from.
  fold (scores_from order). fold (scores_from (canonical order)).
  by rewrite (scores_order_free order Hnd Hsub).
Qed.

Lemma detect_signals_known (resume_txt jd_txt x : string) :
  x ∈ detect_signals resume_txt jd_txt -> x ∈ SIGNALS.
Proof.
  unfold detect_signals. intros Hx.
  repeat match type of Hx with
         | context [if ?b then _ else _] => destruct b
         end;
    repeat (apply elem_of_union in Hx as [Hx | Hx]);
    try (by apply elem_of_empty in Hx);
    apply elem_of_singleton in Hx; subst x; by_compute.
Qed.

(** A property checked on the table of all sets of signals holds of every
    ranking, whatever the order of visit. *)
Lemma rank_by_table (ok : gset string -> Ranking -> bool)
    (set_list : gset string -> list string) (resume_txt jd_txt : string) :
  forallb (fun c => ok (list_to_set c) (rank_styles_from c))
          (sublists_of SIGNALS) = true ->
  enumerates set_list ->
  ok (detect_signals resume_txt jd_txt)
     (rank_styles set_list resume_txt jd_txt) = true.
Proof.
  intros Ht Henum. unfold rank_styles.
  set (X := detect_signals resume_txt jd_txt).
  destruct (Henum X) as [Hnd Hel].
  assert (Hsub : forall x, x ∈ set_list X -> x ∈ SIGNALS).
  { intros x Hx. apply Hel in Hx. by eapply detect_signals_known. }
  rewrite (rank_order_free _ Hnd Hsub).
  rewrite forallb_forall in Ht.
  specialize (Ht (canonical (set_list X))
                 (proj1 (list_elem_of_In _ _) (canonical_in_table _))).
  replace (list_to_set (canonical (set_list X))) with X in Ht; [done |].
  apply set_eq. intros x.
  rewrite elem_of_list_to_set, elem_of_canonical, Hel.
  split; [| tauto]. intros Hx. split; [| done].
  by eapply detect_signals_known.
Qed.

(** X21.  The ranking does not depend on the order in which the set of
    signals is visited, although the scores are sums of doubles. *)
Theorem rank_styles_order_free (set_list set_list' : gset string -> list string)
    (resume_txt jd_txt : string) :
  enumerates set_list -> enumerates set_list' ->
  rank_styles set_list resume_txt jd_txt
  = rank_styles set_list' resume_txt jd_txt.
Proof.
  intros H1 H2. unfold rank_styles.
  set (X := detect_signals resume_txt jd_txt).
  destruct (H1 X) as [Hnd1 Hel1]. destruct (H2 X) as [Hnd2 Hel2].
  rewrite (rank_order_free (set_list X)), (rank_order_free (set_list' X));
    try done.
  - f_equal. apply canonical_same. intros x. by rewrite Hel1, Hel2.
  - intros x Hx. apply Hel2 in Hx. by eapply detect_signals_known.
  - intros x Hx. apply Hel1 in Hx. by eapply detect_signals_known.
Qed.

Lemma enumerates_elements : enumerates elements.
Proof.
  intros X. split; [apply NoDup_elements |]. intros x. apply elem_of_elements.
Qed.

Lemma enumerates_rev_elements : enumerates (fun X => reverse (elements X)).
Proof.
  intros X. split; [rewrite reverse_Permutation; apply NoDup_elements |]. intros x.
  by rewrite elem_of_reverse, elem_of_elements.
Qed.

Lemma rank_styles_order_free_witness :
  rank_styles elements "Python and SQL; cut cost 10%, 20% and 30%." "USAJOBS"
  = rank_styles (fun X => reverse (elements X))
      "Python and SQL; cut cost 10%, 20% and 30%." "USAJOBS".
Proof.
  apply rank_styles_order_free;
    [apply enumerates_elements | apply enumerates_rev_elements].
Defined.

(** X22.  The suggested style and the runner-up are two different keys of
    [STYLE_ORDER] (the fallback of the runner-up is never used); the
    confidence lies between 0 and 1; and the suggestion is [classic]
    exactly when at least three signals other than [technical] fire. *)
Theorem rank_styles_shape (set_list : gset string -> list string)
    (resume_txt jd_txt : string) :
  enumerates set_list ->
  let R := rank_styles set_list resume_txt jd_txt in
  suggested R ∈ STYLE_ORDER
  /\ also_good R ∈ STYLE_ORDER
  /\ also_good R <> suggested R
  /\ (0 <= confidence R <= 1)%Q
  /\ (suggested R = "classic"
      <-> 3 <= size (detect_signals resume_txt jd_txt ∖ {[ "technical" ]})).
Proof.
  intros Henum R.
  assert (Hok : shape_ok (detect_signals resume_txt jd_txt) R = true).
  { apply rank_by_table; [vm_compute; reflexivity | done]. }
  unfold shape_ok in Hok.
  apply andb_true_iff in Hok as [Hok Hc].
  apply andb_true_iff in Hok as [Hok Hhi].
  apply andb_true_iff in Hok as [Hok Hlo].
  apply andb_true_iff in Hok as [Hok Hne].
  apply andb_true_iff in Hok as [Hs Ha].
  apply bool_decide_eq_true in Hs. apply bool_decide_eq_true in Ha.
  split; [done |]. split; [done |]. split.
  { intros Heq. by rewrite Heq, String.eqb_refl in Hne. }
  split; [split; by apply Qle_bool_iff |].
  apply Bool.eqb_prop in Hc. rewrite <- String.eqb_eq, Hc.
  apply bool_decide_eq_true.
Qed.

Lemma rank_styles_shape_witness :
  let R := rank_styles elements "Python and SQL; cut cost 10%, 20% and 30%."
             "USAJOBS" in
  suggested R ∈ STYLE_ORDER
  /\ also_good R ∈ STYLE_ORDER
  /\ also_good R <> suggested R
  /\ (0 <= confidence R <= 1)%Q
  /\ (suggested R = "classic"
      <-> 3 <= size (detect_signals "Python and SQL; cut cost 10%, 20% and 30%."
                       "USAJOBS" ∖ {[ "technical" ]})).
Proof. apply rank_styles_shape, enumerates_elements. Defined.

(** X23.  Few signals: without any signal the suggestion is [academic_cv],
    the first key in alphabetical order, with confidence 0 and runner-up
    [classic]; with one signal the suggestion and the runner-up are the two
    styles that the weight table lists for it, in that order, and the
    confidence is the weight of the first. *)
Theorem rank_styles_few_signals (set_list : gset string -> list string)
    (resume_txt jd_txt : string) :
  enumerates set_list ->
  let R := rank_styles set_list resume_txt jd_txt in
  (detect_signals resume_txt jd_txt = ∅ ->
   R = mkRanking "academic_cv" 0 "classic")
  /\ forall s, detect_signals resume_txt jd_txt = {[ s ]} ->
       exists w2,
         weights_of s = [(suggested R, confidence R); (also_good R, w2)].
Proof.
  intros Henum R.
  assert (Hok : lone_ok (detect_signals resume_txt jd_txt) R = true).
  { apply rank_by_table; [vm_compute; reflexivity | done]. }
  unfold lone_ok in Hok. split.
  - intros He. rewrite He, elements_empty in Hok. by apply ranking_eqb_eq.
  - intros s Hs. rewrite Hs, elements_singleton in Hok.
    destruct (weights_of s) as [| [st1 w1] [| [st2 w2] [| ? ?]]]; try done.
    apply ranking_eqb_eq in Hok. rewrite Hok. by exists w2.
Qed.

Lemma rank_styles_few_signals_witness :
  detect_signals "Taught piano." "Teach piano lessons." = ∅
  /\ rank_styles elements "Taught piano." "Teach piano lessons."
     = mkRanking "academic_cv" 0 "classic".
Proof.
  assert (He : detect_signals "Taught piano." "Teach piano lessons." = ∅)
    by by_compute.
  split; [exact He |].
  exact (proj1 (rank_styles_few_signals elements "Taught piano."
                  "Teach piano lessons." enumerates_elements) He).
Defined.

(** The rounding agrees with known doubles: 0.1, 0.1 + 0.2 and the sum of
    three 0.2, which is above 0.6. *)
Lemma F64_known_values :
  F64.of_Q (1 # 10) = (3602879701896397 # 36028797018963968)%Q
  /\ F64.add (F64.of_Q (1 # 10)) (F64.of_Q (2 # 10))
     = (1351079888211149 # 4503599627370496)%Q
  /\ (F64.of_Q (6 # 10)
      < F64.add (F64.add (F64.of_Q (2 # 10)) (F64.of_Q (2 # 10)))
                (F64.of_Q (2 # 10)))%Q
  /\ F64.round2 (F64.add (F64.add (F64.of_Q (2 # 10)) (F64.of_Q (2 # 10)))
                         (F64.of_Q (2 # 10)))
     = F64.of_Q (6 # 10).
Proof. repeat split; vm_compute; reflexivity. Qed.

(** ** Optimising towards the target only adds content *)

Lemma grown_refl (p : Payload) : grown 0 0 p p.
Proof.
  unfold grown. repeat split; try done.
  - exists []. by rewrite app_nil_r.
  - destruct (p_experience p) as [| r0 rs]; [done |].
    exists []. split; [by destruct r0 |]. split; [done | constructor].
Qed.

Lemma grown_trans (nc nb mc mb : nat) (p p' p'' : Payload) :
  grown nc nb p p' -> grown mc mb p' p'' -> grown (nc + mc) (nb + mb) p p''.
Proof.
  intros (Hn & Hl & He & (a1 & Hc1 & Ha1) & Hx1)
         (Hn' & Hl' & He' & (a2 & Hc2 & Ha2) & Hx2).
  unfold grown. split; [congruence |]. split; [congruence |].
  split; [congruence |]. split.
  - exists (a1 ++ a2). rewrite Hc2, Hc1, <- app_assoc, length_app.
    split; [done | lia].
  - destruct (p_experience p) as [| r0 rs].
    + by rewrite Hx1 in Hx2.
    + destruct Hx1 as (f1 & Hx1 & Hf1 & Hall1). rewrite Hx1 in Hx2.
      destruct Hx2 as (f2 & Hx2 & Hf2 & Hall2).
      exists (f2 ++ f1). rewrite Hx2. split.
      * destruct r0. unfold set_bullets. simpl. by rewrite <- app_assoc.
      * split; [rewrite length_app; lia | by apply Forall_app].
Qed.

Lemma grown_weaken (nc nb mc mb : nat) (p p' : Payload) :
  nc <= mc -> nb <= mb -> grown nc nb p p' -> grown mc mb p p'.
Proof.
  intros Hc Hb (Hn & Hl & He & (a & Hca & Ha) & Hx).
  unfold grown. repeat (split; [done |]). split.
  - exists a. split; [done | lia].
  - destruct (p_experience p) as [| r0 rs]; [done |].
    destruct Hx as (f & Hx & Hf & Hall). exists f.
    split; [done |]. split; [lia | done].
Qed.

Lemma injected_grown (is_kw : string -> Prop) (p p' : Payload) :
  injected_within is_kw 2 2 2 p p' -> grown 2 1 p p'.
Proof.
  intros (_ & (kws & added & Hk & _ & Hc & Ha & _) & Hx & Hn & Hl & He).
  unfold grown. repeat (split; [done |]). split.
  - exists added. split; [done | lia].
  - destruct Hx as [Hx | (kws' & r0 & rs & _ & _ & Hp & Hx)].
    + rewrite Hx. destruct (p_experience p) as [| r0 rs]; [done |].
      exists []. split; [by destruct r0 |]. split; [simpl; lia | constructor].
    + rewrite Hp. exists [advanced_sentence kws'].
      split; [done |]. split; [simpl; lia |].
      constructor; [| constructor]. right. by exists kws'.
Qed.

Lemma shell_grown (p : Payload) : grown 0 1 p (V9.inject_metric_shell p).
Proof.
  unfold V9.inject_metric_shell.
  destruct (p_experience p) as [| r0 rs] eqn:Hp.
  { apply (grown_weaken 0 0); [lia | lia | apply grown_refl]. }
  destruct (negb _).
  - unfold grown. simpl. repeat (split; [done |]). split.
    + exists []. by rewrite app_nil_r.
    + rewrite Hp. exists [METRIC_SHELL].
      split; [done |]. split; [simpl; lia |].
      constructor; [by left | constructor].
  - apply (grown_weaken 0 0); [lia | lia | apply grown_refl].
Qed.

Lemma optimize_loop_grown (ats_score : string -> Z)
    (set_list : gset string -> list string) (iters : nat) (payload : Payload)
    (jd_text : string) (target : Z) :
  (forall (X : gset string) (x : string), x ∈ set_list X -> x ∈ X) ->
  grown (2 * iters) (2 * iters) payload
        (optimize_loop ats_score set_list iters payload jd_text target).
Proof.
  intros Hsound. revert payload.
  induction iters as [| k IH]; intros payload; [apply grown_refl |].
  cbn [optimize_loop]. unfold Fat.composite_scores.
  destruct (_ <=? _)%Z.
  { apply (grown_weaken 0 0); [lia | lia | apply grown_refl]. }
  replace (2 * S k) with (2 + 0 + 2 * k) by lia.
  eapply (grown_trans (2 + 0) (1 + 1) (2 * k) (2 * k)) in IH.
  - eapply grown_weaken; [| | exact IH]; lia.
  - eapply grown_trans; [| apply shell_grown].
    eapply injected_grown.
    apply (inject_keywords_within set_list V9.payload_to_text Hsound
             payload jd_text 2 2 2).
Qed.

(** X24.  [optimize_to_target] only adds content: over its at most
    [max_iters] rounds it appends at most two core entries per round and
    puts at most two lines per round in front of the first role's bullets,
    each the metric placeholder or an injected sentence; the candidate's own
    core entries and bullets stay, in their order, and the name, the
    licences, the education and the other roles are untouched. *)
Theorem optimize_to_target_only_adds (ats_score : string -> Z)
    (set_list : gset string -> list string) (payload : Payload)
    (jd_text : string) (target max_iters : Z) :
  (forall (X : gset string) (x : string), x ∈ set_list X -> x ∈ X) ->
  grown (2 * Z.to_nat max_iters) (2 * Z.to_nat max_iters) payload
        (optimize_to_target ats_score set_list payload jd_text target
           max_iters).
Proof. intros Hsound. by apply optimize_loop_grown. Qed.

Lemma optimize_to_target_only_adds_witness :
  grown (2 * Z.to_nat 5) (2 * Z.to_nat 5) metric_payload
        (optimize_to_target (fun _ => 40%Z) elements metric_payload
           "Python, Kubernetes, Docker, Terraform, budgeting and leadership"
           95 5).
Proof.
  apply optimize_to_target_only_adds. intros X x. apply elem_of_elements.
Defined.

(** ** The placeholder of v9.2.2 piles up *)

Lemma no_backslash_no_match (x : string) :
  no_backslash x -> V9.has_backslash_d x = false.
Proof.
  unfold no_backslash, V9.has_backslash_d, Py.contains.
  induction (Py.chars x) as [| c t IH]; intros Hall; [done |].
  apply Forall_cons in Hall as [Hc Hall]. cbn [Py.contains_chars].
  rewrite (IH Hall), orb_false_r.
  change (Py.chars (BSL ++ "d")) with [ascii_of_N 92; "d"%char].
  cbn [Py.starts_with]. destruct (Ascii.eqb_spec (ascii_of_N 92) c); [| done].
  by subst c.
Qed.

Lemma no_backslash_app (a b : string) :
  no_backslash a -> no_backslash b -> no_backslash (a ++ b).
Proof.
  unfold no_backslash. rewrite chars_app. apply Forall_app_2.
Qed.

Lemma token_no_backslash (t : string) : is_token t -> no_backslash t.
Proof.
  intros [_ Hall]. unfold no_backslash. eapply Forall_impl; [exact Hall |].
  intros c Hc ->. by vm_compute in Hc.
Qed.

Lemma join_no_backslash (kws : list string) :
  Forall no_backslash kws -> no_backslash (Py.join ", " kws).
Proof.
  unfold Py.join. induction kws as [| k kws IH]; intros Hall.
  - constructor.
  - apply Forall_cons in Hall as [Hk Hall]. destruct kws as [| k' kws].
    + done.
    + change (String.concat ", " (k :: k' :: kws))
        with (k ++ ", " ++ String.concat ", " (k' :: kws))%string.
      apply no_backslash_app; [done |].
      apply no_backslash_app; [| by apply IH].
      unfold no_backslash. by repeat constructor.
Qed.

Lemma advanced_no_match (kws : list string) :
  Forall is_token kws -> V9.has_backslash_d (advanced_sentence kws) = false.
Proof.
  intros Hall. apply no_backslash_no_match. unfold advanced_sentence.
  apply no_backslash_app; [unfold no_backslash; by repeat constructor |].
  apply no_backslash_app; [| unfold no_backslash; by repeat constructor].
  apply join_no_backslash. eapply Forall_impl; [exact Hall |].
  apply token_no_backslash.
Qed.

Lemma advanced_not_shell (kws : list string) :
  advanced_sentence kws <> METRIC_SHELL.
Proof. unfold advanced_sentence. simpl. discriminate. Qed.

Section Pile.
Variable ats_score : string -> Z.
Variable set_list : gset string -> list string.
Variable jd_text : string.
Variable target : Z.

Hypothesis set_list_sound : forall (X : gset string) (x : string),
  x ∈ set_list X -> x ∈ X.

(** No text reaches the target. *)
Hypothesis below_target : forall txt,
  let '(_, _, hire, _) := Fat.composite_scores ats_score jd_text txt in
  (hire < target)%Z.

Lemma optimize_round_piles (payload : Payload) (r0 : Role) (rs : list Role) :
  p_experience payload = r0 :: rs ->
  Forall (fun b => V9.has_backslash_d b = false) (r_bullets r0) ->
  exists front,
    p_experience
      (V9.inject_metric_shell
         (V9.inject_keywords set_list payload jd_text (2, 2, 2)%Z))
    = set_bullets r0 (METRIC_SHELL :: front ++ r_bullets r0) :: rs
    /\ shells_in front = 0
    /\ Forall (fun b => V9.has_backslash_d b = false) front.
Proof.
  intros Hp Hclean.
  destruct (inject_keywords_within set_list V9.payload_to_text set_list_sound
              payload jd_text 2 2 2)
    as (_ & _ & Hx & _).
  set (p1 := inject_keywords set_list V9.payload_to_text payload
               jd_text (Z.of_nat 2, Z.of_nat 2, Z.of_nat 2)) in *.
  change (V9.inject_keywords set_list payload jd_text (2, 2, 2)%Z) with p1.
  assert (Hp1 : exists front,
             p_experience p1 = set_bullets r0 (front ++ r_bullets r0) :: rs
             /\ shells_in front = 0
             /\ Forall (fun b => V9.has_backslash_d b = false) front).
  { destruct Hx as [Hx | (kws & r0' & rs' & _ & Hkws & Hp' & Hx)].
    - exists []. rewrite Hx, Hp. split; [by destruct r0 |]. split; [done |].
      constructor.
    - rewrite Hp in Hp'. injection Hp' as <- <-.
      exists [advanced_sentence kws]. split; [done |]. split.
      + unfold shells_in. rewrite filter_cons_False; [done |].
        apply advanced_not_shell.
      + constructor; [| constructor]. apply advanced_no_match.
        eapply Forall_impl; [exact Hkws |]. by intros k [Hk _]. }
  destruct Hp1 as (front & Hp1 & Hs & Hf). exists front.
  unfold V9.inject_metric_shell. rewrite Hp1.
  replace (existsb V9.has_backslash_d
             (r_bullets (set_bullets r0 (front ++ r_bullets r0))))
    with false.
  - cbn [negb]. split; [| done]. by destruct r0.
  - symmetry. apply not_true_is_false. intros Hex.
    apply existsb_exists in Hex as (b & Hb & Hm).
    cbn [r_bullets set_bullets] in Hb. apply in_app_or in Hb.
    assert (Hall : Forall (fun b => V9.has_backslash_d b = false)
                          (front ++ r_bullets r0)) by by apply Forall_app.
    rewrite Forall_forall in Hall.
    destruct Hb as [Hb | Hb]; apply list_elem_of_In in Hb;
      (rewrite Hall in Hm; [done | set_solver]).
Qed.

Lemma optimize_loop_piles (iters : nat) (payload : Payload) (r0 : Role)
    (rs : list Role) :
  p_experience payload = r0 :: rs ->
  Forall (fun b => V9.has_backslash_d b = false) (r_bullets r0) ->
  exists front,
    p_experience (optimize_loop ats_score set_list iters payload jd_text target)
    = set_bullets r0 (front ++ r_bullets r0) :: rs
    /\ shells_in front = iters.
Proof.
  revert payload r0. induction iters as [| k IH]; intros payload r0 Hp Hclean.
  - exists []. split; [| done]. cbn [optimize_loop]. rewrite Hp. by destruct r0.
  - cbn [optimize_loop].
    pose proof (below_target (V9.payload_to_text payload)) as Hlow.
    destruct (Fat.composite_scores _ _ _) as [[[cov ats] hire] grade].
    destruct (Z.leb_spec target hire) as [Hge | _]; [lia |].
    destruct (optimize_round_piles payload r0 rs Hp Hclean)
      as (f1 & Hp2 & Hs1 & Hf1).
    destruct (IH _ _ Hp2) as (f2 & Hres & Hs2).
    { cbn [r_bullets set_bullets]. constructor; [done |]. by apply Forall_app. }
    exists (f2 ++ METRIC_SHELL :: f1). rewrite Hres. split.
    + destruct r0 as [co ti da bu]. unfold set_bullets.
      cbn [r_company r_title r_dates r_bullets].
      by rewrite <- app_assoc.
    + unfold shells_in in *. rewrite filter_app, length_app, Hs2.
      rewrite filter_cons_True by done. simpl. lia.
Qed.
End Pile.

(** X25.  In v9.2.2 the metric placeholder piles up: when no text reaches
    the target and no bullet of the first role holds a backslash followed
    by the letter d, every round of [optimize_to_target] puts one more copy
    of the placeholder in front of the first role's bullets, digits or
    not. *)
Theorem optimize_to_target_piles_placeholders (ats_score : string -> Z)
    (set_list : gset string -> list string) (payload : Payload)
    (jd_text : string) (target max_iters : Z) (r0 : Role) (rs : list Role) :
  (forall (X : gset string) (x : string), x ∈ set_list X -> x ∈ X) ->
  (forall txt,
     let '(_, _, hire, _) := Fat.composite_scores ats_score jd_text txt in
     (hire < target)%Z) ->
  p_experience payload = r0 :: rs ->
  Forall (fun b => V9.has_backslash_d b = false) (r_bullets r0) ->
  exists front,
    p_experience
      (optimize_to_target ats_score set_list payload jd_text target max_iters)
    = set_bullets r0 (front ++ r_bullets r0) :: rs
    /\ shells_in front = Z.to_nat max_iters.
Proof.
  intros Hsound Hlow Hp Hclean. unfold optimize_to_target.
  by apply optimize_loop_piles.
Qed.

Lemma optimize_to_target_piles_placeholders_witness :
  exists front,
    p_experience
      (optimize_to_target (fun _ => 40%Z) elements metric_payload
         "Python, Kubernetes, Docker, Terraform, budgeting and leadership"
         101 5)
    = set_bullets
        (mkRole "Acme" "Analyst" "2019-2024"
                ["Grew revenue 14% year over year."])
        (front ++ ["Grew revenue 14% year over year."]) :: []
    /\ shells_in front = Z.to_nat 5.
Proof.
  apply (optimize_to_target_piles_placeholders (fun _ => 40%Z) elements
           metric_payload _ 101 5
           (mkRole "Acme" "Analyst" "2019-2024"
                   ["Grew revenue 14% year over year."]) []).
  - intros X x. apply elem_of_elements.
  - intros txt. unfold Fat.composite_scores.
    pose proof (hire_of_between
                  (coverage_of
                     (Fat.kw_set
                        "Python, Kubernetes, Docker, Terraform, budgeting and leadership"
                        400)
                     (Fat.kw_set txt 400)) 40) as Hb.
    pose proof (coverage_of_bounds
                  (Fat.kw_set
                     "Python, Kubernetes, Docker, Terraform, budgeting and leadership"
                     400)
                  (Fat.kw_set txt 400)) as Hc.
    lia.
  - reflexivity.
  - repeat constructor.
Defined.

(** ** Scan health stays between 0 and 100 *)

Lemma ilog2_lower (q : Q) : (0 < q)%Q -> (2 ^ F64.ilog2 q <= q)%Q.
Proof.
  destruct q as [n d]. unfold Qlt. cbn [Qnum Qden]. intros Hn.
  assert (Hpos : (0 < n)%Z) by lia. clear Hn.
  unfold F64.ilog2. cbn [Qabs Qnum Qden]. rewrite (Z.abs_eq n) by lia.
  set (ln := Z.log2 n). set (ld := Z.log2 (Z.pos d)).
  destruct (Qle_bool (2 ^ (ln - ld)) (n # d)) eqn:Hb.
  { by apply Qle_bool_iff. }
  clear Hb.
  assert (Hln : (0 <= ln)%Z) by apply Z.log2_nonneg.
  assert (Hld : (0 <= ld)%Z) by apply Z.log2_nonneg.
  destruct (Z.log2_spec n Hpos) as [Hn1 _].
  destruct (Z.log2_spec (Z.pos d) ltac:(lia)) as [_ Hd2].
  fold ln in Hn1. fold ld in Hd2. rewrite <- Z.add_1_r in Hd2.
  replace (ln - ld - 1)%Z with (ln - (ld + 1))%Z by lia.
  rewrite Qpower_minus by done.
  change 2%Q with (inject_Z 2).
  rewrite <- !Zpower_Qpower by lia.
  apply Qle_shift_div_r.
  - rewrite <- (Zlt_Qlt 0). lia.
  - unfold Qle, Qmult, inject_Z. cbn [Qnum Qden]. nia.
Qed.

Lemma of_Q_ge_one (q : Q) : (1 <= q)%Q -> (1 <= F64.of_Q q)%Q.
Proof.
  intros Hq. unfold F64.of_Q.
  destruct (Qeq_bool q 0) eqn:Hz.
  { apply Qeq_bool_eq in Hz. rewrite Hz in Hq. by apply Qle_not_lt in Hq. }
  clear Hz. rewrite Qred_correct.
  set (s := (52 - F64.ilog2 q)%Z).
  assert (Hpow : (0 < 2 ^ s)%Q) by by apply Qpower_0_lt.
  apply Qle_shift_div_l; [done |]. rewrite Qmult_1_l.
  assert (Hq0 : (0 < q)%Q) by (eapply Qlt_le_trans; [| exact Hq]; done).
  destruct (Z.le_gt_cases 0 s) as [Hs | Hs].
  - apply (Qle_trans _ (inject_Z (2 ^ s))).
    { rewrite Zpower_Qpower by done. apply Qle_refl. }
    rewrite <- Zle_Qle. rewrite <- (round_inject_Z (2 ^ s)) at 1.
    apply round_mono. rewrite Zpower_Qpower by done.
    apply (Qle_trans _ (1 * 2 ^ s)).
    { rewrite Qmult_1_l. apply Qle_refl. }
    apply Qmult_le_compat_r; [done | by apply Qlt_le_weak].
  - apply (Qle_trans _ 1).
    + replace s with (- (- s))%Z by lia. rewrite Qpower_opp.
      assert (H1 : (1 <= 2 ^ (- s))%Q) by (apply Qpower_1_le; [done | lia]).
      apply Qle_shift_inv_r; [eapply Qlt_le_trans; [| exact H1]; done |].
      by rewrite Qmult_1_l.
    + change 1%Q with (inject_Z 1). rewrite <- Zle_Qle.
      rewrite <- (round_inject_Z 1). apply round_mono.
      apply (Qle_trans _ (2 ^ F64.ilog2 q * 2 ^ s)).
      * rewrite <- Qpower_plus by done.
        replace (F64.ilog2 q + s)%Z with 52%Z by (unfold s; lia). done.
      * apply Qmult_le_compat_r; [by apply ilog2_lower | by apply Qlt_le_weak].
Qed.

Lemma min_one_capped (a : nat) (d : positive) :
  min_one (F64.div_int (Z.of_nat a) d)
  = min_one (F64.div_int (Z.of_nat (a `min` Pos.to_nat d)) d).
Proof.
  destruct (Nat.le_gt_cases (Pos.to_nat d) a) as [Hge | Hlt].
  - assert (Hone : forall b, Pos.to_nat d <= b ->
                     min_one (F64.div_int (Z.of_nat b) d) = 1%Q).
    { intros b Hb. unfold min_one, F64.div_int.
      replace (Qle_bool 1 (F64.of_Q (Z.of_nat b # d))) with true; [done |].
      symmetry. apply Qle_bool_iff, of_Q_ge_one.
      unfold Qle. cbn [Qnum Qden]. lia. }
    rewrite !Hone; [done | lia | done].
  - by rewrite Nat.min_l by lia.
Qed.

Lemma ats_capped (vcount nums urls : nat) :
  ats_from_counts vcount nums urls
  = ats_from_counts (vcount `min` 18) (nums `min` 12) (urls `min` 3).
Proof.
  unfold ats_from_counts.
  by rewrite (min_one_capped vcount 18), (min_one_capped nums 12),
    (min_one_capped urls 3).
Qed.

Lemma forallb_seq (f : nat -> bool) (n k : nat) :
  forallb f (seq 0 n) = true -> k < n -> f k = true.
Proof.
  intros Hall Hk. rewrite forallb_forall in Hall. apply Hall.
  apply in_seq. lia.
Qed.

Lemma below_caps_spec (f : nat -> nat -> nat -> bool) (a b c : nat) :
  below_caps f = true -> a < 19 -> b < 13 -> c < 4 -> f a b c = true.
Proof.
  unfold below_caps. intros Hall Ha Hb Hc.
  apply (forallb_seq _ _ a) in Hall; [| exact Ha].
  apply (forallb_seq _ _ b) in Hall; [| exact Hb].
  apply (forallb_seq _ _ c) in Hall; [| exact Hc].
  exact Hall.
Qed.

Lemma ats_table_ok : below_caps ats_ok = true.
Proof. vm_compute. reflexivity. Qed.

Lemma ats_ok_spec (v n u : nat) :
  ats_ok v n u = true -> (0 <= ats_from_counts v n u <= 100)%Z.
Proof.
  unfold ats_ok. generalize (ats_from_counts v n u). intros z H.
  apply andb_true_iff in H as [H1 H2].
  apply Z.leb_le in H1. apply Z.leb_le in H2. exact (conj H1 H2).
Qed.

Lemma ats_bounds (vcount nums urls : nat) :
  (0 <= ats_from_counts vcount nums urls <= 100)%Z.
Proof.
  rewrite ats_capped. apply ats_ok_spec.
  apply (below_caps_spec ats_ok); [exact ats_table_ok | lia ..].
Qed.

(** X28.  The scan-health arithmetic of [ats_score] gives an integer
    between 0 and 100 for all counts of verbs, numbers and links; counts
    beyond 18 verbs, 12 numbers and 3 links change nothing, and at these
    counts the score is 100, the doubles 0.5, 0.3 and 0.2 adding up to
    exactly 1.0. *)
Theorem ats_from_counts_range (vcount nums urls : nat) :
  (0 <= ats_from_counts vcount nums urls <= 100)%Z
  /\ ats_from_counts vcount nums urls
     = ats_from_counts (vcount `min` 18) (nums `min` 12) (urls `min` 3)
  /\ (18 <= vcount -> 12 <= nums -> 3 <= urls ->
      ats_from_counts vcount nums urls = 100%Z).
Proof.
  split; [apply ats_bounds |]. split; [apply ats_capped |].
  intros Hv Hn Hu. rewrite ats_capped.
  rewrite (Nat.min_r vcount 18), (Nat.min_r nums 12), (Nat.min_r urls 3)
    by lia.
  vm_compute. reflexivity.
Qed.

(** X29.  Whatever the three regular-expression counts of a text are, the
    scores of [composite_scores] are percentages in both builds: coverage,
    scan health and hire likelihood all lie between 0 and 100. *)
Theorem composite_scores_are_percentages
    (vcount nums urls : string -> nat) (jd txt : string) :
  let ats_score := fun tx => ats_from_counts (vcount tx) (nums tx) (urls tx) in
  let s := V11.composite_scores ats_score jd txt in
  let '(cov, ats, hire, _) := Fat.composite_scores ats_score jd txt in
  (0 <= sc_match s <= 100)%Z /\ (0 <= sc_scan s <= 100)%Z
  /\ (0 <= sc_hire s <= 100)%Z
  /\ (0 <= cov <= 100)%Z /\ (0 <= ats <= 100)%Z /\ (0 <= hire <= 100)%Z.
Proof.
  cbv zeta. unfold Fat.composite_scores.
  cbn [V11.composite_scores sc_match sc_scan sc_hire].
  pose proof (ats_bounds (vcount txt) (nums txt) (urls txt)) as Ha.
  pose proof (coverage_of_bounds (V11.kw_set jd 400) (V11.kw_set txt 400))
    as Hc1.
  pose proof (coverage_of_bounds (Fat.kw_set jd 400) (Fat.kw_set txt 400))
    as Hc2.
  pose proof (hire_of_between
                (coverage_of (V11.kw_set jd 400) (V11.kw_set txt 400))
                (ats_from_counts (vcount txt) (nums txt) (urls txt))) as Hh1.
  pose proof (hire_of_between
                (coverage_of (Fat.kw_set jd 400) (Fat.kw_set txt 400))
                (ats_from_counts (vcount txt) (nums txt) (urls txt))) as Hh2.
  lia.
Qed.
